(** * The action execution engine of openslides_backend/action/action.py

    A shallow embedding of [Action.perform] and the methods it drives,
    of [merge_write_requests], and of the
    [list_of_speakers.delete_all_speakers] action, together with the
    properties the specification states about them.

    Python objects are modelled as follows.
    - dictionaries that are only looked up are [gmap]s; dictionaries that
      are iterated ([fdict], the relation updates) are association lists in
      insertion order;
    - methods that read or write attributes of [self] or of the shared
      datastore are functions in a state-and-exception monad [M]; the state
      survives a raised exception, as it does in Python;
    - a generator is a resumable computation ([Generator]), so that the body
      of [get_updated_instances] is interleaved with the loop of [perform]
      exactly as in the source. *)

From Stdlib Require Import ZArith String List.
From stdpp Require Import base option list gmap strings pretty.

Local Open Scope string_scope.
Local Open Scope Z_scope.
Local Open Scope list_scope.

(** ** Patterns (shared/patterns.py is used through its constructors only) *)

Definition Collection := string.

Record FullQualifiedId := mkFqid {
  fqid_collection : Collection;
  fqid_id : Z;
}.

Record FullQualifiedField := mkFqfield {
  fqfield_collection : Collection;
  fqfield_id : Z;
  fqfield_field : string;
}.

#[global] Instance FullQualifiedId_eq_dec : EqDecision FullQualifiedId.
Proof. solve_decision. Defined.

#[global] Instance FullQualifiedId_countable : Countable FullQualifiedId.
Proof.
  refine (inj_countable' (λ f, (fqid_collection f, fqid_id f))
                         (λ p, mkFqid p.1 p.2) _).
  by intros [].
Defined.

#[global] Instance FullQualifiedField_eq_dec : EqDecision FullQualifiedField.
Proof. solve_decision. Defined.

(** Modelled from the spec: [str(fqid)] of shared/patterns.py, which is not
    under verification here; the spec writes an entity reference as
    collection/id. *)
Definition str_fqid (f : FullQualifiedId) : string :=
  fqid_collection f +:+ "/" +:+ pretty (fqid_id f).

Definition str_fqfield (f : FullQualifiedField) : string :=
  fqfield_collection f +:+ "/" +:+ pretty (fqfield_id f) +:+ "/" +:+ fqfield_field f.

(** ** Values, instances, events, write requests *)

(** The JSON-like values an instance carries ([Any] in the source). *)
#[local] Unset Elimination Schemes.
Inductive value : Type :=
| VNone
| VBool (b : bool)
| VInt (n : Z)
| VStr (s : string)
| VList (l : list value)
| VDict (d : list (string * value)).
#[local] Set Elimination Schemes.

(** Python truth value testing, as used by [not instance[name]] and
    [if data["add"]]. *)
Definition truthy (v : value) : bool :=
  match v with
  | VNone => false
  | VBool b => b
  | VInt n => negb (Z.eqb n 0)
  | VStr s => negb (String.eqb s "")
  | VList l => match l with [] => false | _ => true end
  | VDict d => match d with [] => false | _ => true end
  end.

Abbreviation Instance := (gmap string value).
Abbreviation ActionData := (list Instance).
Abbreviation ModelMap := (gmap FullQualifiedId Instance).

Inductive EventType := Create | Update | Delete.

#[global] Instance EventType_eq_dec : EqDecision EventType.
Proof. solve_decision. Defined.

(** [ListFields] is a TypedDict whose two keys are both optional. *)
Record ListFields := mkListFields {
  lf_add : option (gmap string value);
  lf_remove : option (gmap string value);
}.

(** [Event] is a TypedDict: "type" and "fqid" always, "fields" and
    "list_fields" only when set. *)
Record Event := mkEvent {
  ev_type : EventType;
  ev_fqid : FullQualifiedId;
  ev_fields : option Instance;
  ev_list_fields : option ListFields;
}.

Record WriteRequest := mkWriteRequest {
  events : list Event;
  information : gmap FullQualifiedId (list string);
  user_id : Z;
  locked_fields : gmap string Z;
}.

Definition set_events (w : WriteRequest) (evs : list Event) : WriteRequest :=
  mkWriteRequest evs (information w) (user_id w) (locked_fields w).

Definition set_locked_fields (w : WriteRequest) (lf : gmap string Z) : WriteRequest :=
  mkWriteRequest (events w) (information w) (user_id w) lf.

(** ** Exceptions and the monad of methods *)

Inductive Exception :=
| ActionException (message : string)
| PermissionDenied (message : string)
| RequiredFieldsException (message : string) (required_fields : list string)
| ValueError (message : string)
| KeyError (key : string)
| AttributeError (attribute : string)
| NotImplementedError
| TypeError (message : string)
| DatastoreException (message : string).

Inductive outcome (A : Type) :=
| Ok (a : A)
| Raise (e : Exception).
Arguments Ok {A} a.
Arguments Raise {A} e.

Definition M (S A : Type) : Type := S → outcome A * S.

Definition ret {S A} (a : A) : M S A := λ s, (Ok a, s).
Definition raise {S A} (e : Exception) : M S A := λ s, (Raise e, s).
Definition bind {S A B} (m : M S A) (k : A → M S B) : M S B :=
  λ s, match m s with
       | (Ok a, s') => k a s'
       | (Raise e, s') => (Raise e, s')
       end.
Definition gets {S A} (f : S → A) : M S A := λ s, (Ok (f s), s).
Definition modify {S} (f : S → S) : M S unit := λ s, (Ok tt, f s).
Definition lift_outcome {S A} (o : outcome A) : M S A := λ s, (o, s).

Declare Scope action_scope.
Delimit Scope action_scope with action.
Notation "x <- m ;; k" := (bind m (λ x, k))
  (at level 100, m at next level, right associativity) : action_scope.
Local Open Scope action_scope.

(** ** merge_write_requests (module level function)

    [information[fqid].extend(info_text)] appends to the list stored under
    [fqid]; [user_id] is the local [Optional[int]] of the source, while
    [element.user_id] has the declared type [int]. *)

Definition merge_information
    (information : gmap FullQualifiedId (list string))
    (element_information : list (FullQualifiedId * list string))
  : gmap FullQualifiedId (list string) :=
  foldl (λ inf item,
           match inf !! item.1 with
           | None => <[item.1 := item.2]> inf
           | Some old => <[item.1 := old ++ item.2]> inf
           end)
        information element_information.

Record MergeAcc := mkMergeAcc {
  acc_events : list Event;
  acc_information : gmap FullQualifiedId (list string);
  acc_user_id : option Z;
}.

Fixpoint merge_loop (write_requests : list WriteRequest) (acc : MergeAcc)
  : outcome MergeAcc :=
  match write_requests with
  | [] => Ok acc
  | element :: rest =>
      let events' := acc_events acc ++ events element in
      let information' :=
        merge_information (acc_information acc) (map_to_list (information element)) in
      match acc_user_id acc with
      | None => merge_loop rest (mkMergeAcc events' information' (Some (user_id element)))
      | Some u =>
          if bool_decide (u ≠ user_id element)
          then Raise (ValueError
                 "You can not merge two write request elements of different users.")
          else merge_loop rest (mkMergeAcc events' information' (Some u))
      end
  end.

Definition merge_write_requests (write_requests : list WriteRequest)
  : outcome (option WriteRequest) :=
  match merge_loop write_requests (mkMergeAcc [] ∅ None) with
  | Raise e => Raise e
  | Ok acc =>
      match acc_events acc with
      | _ :: _ =>
          match acc_user_id acc with
          | None => Raise (ValueError "At least one of the given user ids must not be None.")
          | Some u => Ok (Some (mkWriteRequest (acc_events acc) (acc_information acc) u ∅))
          end
      | [] => Ok None
      end
  end.

(** ** The collaborators and the state of a running action *)

(** One recorded call of [Datastore.get]: fqid, mapped_fields, lock_result. *)
Definition GetCall : Type := FullQualifiedId * list string * bool.

(** The datastore object shared by an action and every action it invokes.
    [ds_locked_fields] is the attribute [locked_fields] of the interface
    (services/datastore/interface.py, keys are stringified fqids or
    fqfields); [ds_get_calls] is a ghost log of the calls of [get]. *)
Record Datastore := mkDatastore {
  ds_models : ModelMap;
  ds_position : Z;
  ds_locked_fields : gmap string Z;
  ds_additional_relation_models : ModelMap;
  ds_get_calls : list GetCall;
}.

(** One recorded call of [PermissionService.is_allowed]. *)
Definition PermissionCall : Type := string * Z * ActionData.

(** What the action shares with its caller: the datastore object and a ghost
    log of the consultations of the permission service. *)
Record Shared := mkShared {
  datastore : Datastore;
  permission_calls : list PermissionCall;
}.

(** The attributes of one action object that [perform] assigns. The two
    integers do not exist before the first [perform]. *)
Record Self := mkSelf {
  self_user_id : option Z;
  self_index : option Z;
  write_requests : list WriteRequest;
}.

Record State := mkState {
  shared : Shared;
  self : Self;
}.

Abbreviation Act := (M State).

(** [Action.__init__] leaves [write_requests] empty. *)
Definition new_self : Self := mkSelf None None [].

Definition set_datastore (d : Datastore) (s : State) : State :=
  mkState (mkShared d (permission_calls (shared s))) (self s).
Definition set_self (x : Self) (s : State) : State := mkState (shared s) x.
Definition set_user_id (u : Z) (s : State) : State :=
  set_self (mkSelf (Some u) (self_index (self s)) (write_requests (self s))) s.
Definition set_index (i : Z) (s : State) : State :=
  set_self (mkSelf (self_user_id (self s)) (Some i) (write_requests (self s))) s.
Definition set_write_requests (l : list WriteRequest) (s : State) : State :=
  set_self (mkSelf (self_user_id (self s)) (self_index (self s)) l) s.
Definition log_permission_call (c : PermissionCall) (s : State) : State :=
  mkState (mkShared (datastore (shared s)) (permission_calls (shared s) ++ [c])) (self s).
Definition set_ds_locked_fields (lf : gmap string Z) (d : Datastore) : Datastore :=
  mkDatastore (ds_models d) (ds_position d) lf (ds_additional_relation_models d)
              (ds_get_calls d).

(** [self.index += 1]; the attribute is assigned before every use. *)
Definition increment_index : Act unit :=
  λ s, match self_index (self s) with
       | Some i => (Ok tt, set_index (i + 1) s)
       | None => (Raise (AttributeError "index"), s)
       end.

(** The fields of a model that a read with [mapped_fields] returns. *)
Definition restrict_fields (mapped_fields : list string) (model : Instance) : Instance :=
  match mapped_fields with
  | [] => model
  | _ => filter (λ kv, kv.1 ∈ mapped_fields) model
  end.

(** The keys under which a locked read is registered. *)
Definition lock_keys (fqid : FullQualifiedId) (mapped_fields : list string) : list string :=
  match mapped_fields with
  | [] => [str_fqid fqid]
  | _ => (λ f, str_fqfield (mkFqfield (fqid_collection fqid) (fqid_id fqid) f))
           <$> mapped_fields
  end.

Definition register_locks (keys : list string) (position : Z) (lf : gmap string Z)
  : gmap string Z :=
  foldl (λ acc k, <[k := position]> acc) lf keys.

(** Modelled from the spec: [Datastore.get] of the datastore adapter, of
    which only the interface is among the sources. A read fails for an
    unknown entity, returns the requested fields that the entity has (all of
    them when no field is requested) and, with [lock_result], registers what
    it read in the shared locked-fields registry: the fqfield of every
    requested field, or the fqid when the whole entity was read. *)
Definition datastore_get (fqid : FullQualifiedId) (mapped_fields : list string)
    (lock_result : bool) : Act Instance :=
  λ s,
    let d := datastore (shared s) in
    let d1 := mkDatastore (ds_models d) (ds_position d) (ds_locked_fields d)
                (ds_additional_relation_models d)
                (ds_get_calls d ++ [(fqid, mapped_fields, lock_result)]) in
    match ds_models d !! fqid with
    | None =>
        (Raise (DatastoreException ("Model " +:+ str_fqid fqid +:+ " does not exist.")),
         set_datastore d1 s)
    | Some model =>
        let d2 :=
          if lock_result
          then set_ds_locked_fields
                 (register_locks (lock_keys fqid mapped_fields) (ds_position d)
                                 (ds_locked_fields d)) d1
          else d1 in
        (Ok (restrict_fields mapped_fields model), set_datastore d2 s)
    end.

(** ** Generators

    A generator object is a resumable computation: asking it for the next
    element runs its body up to the next [yield] (an element and the rest of
    the generator), to its end ([None]) or to a raised exception. *)
#[local] Unset Elimination Schemes.
Inductive Generator (A : Type) : Type :=
| Gen (next : State → outcome (option (A * Generator A)) * State).
#[local] Set Elimination Schemes.
Arguments Gen {A} next.

Definition next {A} (g : Generator A) : Act (option (A * Generator A)) :=
  match g with Gen f => f end.

Definition gen_stop {A} : Generator A := Gen (λ s, (Ok None, s)).

(** [yield from xs] followed by the rest [k] of the generator body. *)
Fixpoint yield_from {A} (xs : list A) (k : Generator A) : Generator A :=
  match xs with
  | [] => k
  | x :: xs' => Gen (λ s, (Ok (Some (x, yield_from xs' k)), s))
  end.

(** Iterating over a list. *)
Definition iter_list {A} (xs : list A) : Generator A := yield_from xs gen_stop.

(** ** Relation updates (action/relations/typing.py, used by
    handle_relation_updates through the keys "type", "value", "add" and
    "remove") *)

Inductive FieldUpdateType := Add | Remove.

Inductive RelationUpdateElement :=
| FieldUpdateElement (type : FieldUpdateType) (val : value)
| ListUpdateElement (add remove : list value).

(** The dictionary returned by the relation manager, in iteration order. *)
Abbreviation RelationUpdates := (list (FullQualifiedField * RelationUpdateElement)).

Abbreviation ActionResults := (list (option value)).

(** ** An action object

    [Context] holds what the constructor stores on the object: the
    permission service (an oracle; its consultations are logged in the
    state), the relation manager, and the additional relation models.
    [ActionClass] holds what a subclass defines. A missing
    [get_updated_instances] stands for the inherited method, the one that
    carries the attribute [_native]. *)

Record Context := mkContext {
  is_allowed : string → Z → ActionData → bool;
  get_relation_updates :
    Collection → Instance → string → ModelMap → Act RelationUpdates;
  additional_relation_models : ModelMap;
}.

Record ActionClass := mkActionClass {
  name : string;
  model : Collection;
  schema_validator : Instance → option string;
  get_updated_instances : option (Context → ActionData → Generator Instance);
  base_update_instance : Context → Instance → Act Instance;
  create_write_requests : Context → Instance → Act (list WriteRequest);
  create_action_result_element : Context → Instance → Act (option value);
}.

Definition read_user_id : Act Z :=
  λ s, match self_user_id (self s) with
       | Some u => (Ok u, s)
       | None => (Raise (AttributeError "user_id"), s)
       end.

Fixpoint mapM {A B} (f : A → Act B) (l : list A) : Act (list B) :=
  match l with
  | [] => ret []
  | x :: l' => y <- f x ;; ys <- mapM f l' ;; ret (y :: ys)
  end.

Section Methods.
Variable cls : ActionClass.
Variable ctx : Context.

(** The compiled schema answers [None] for a valid instance and the
    message of the [JsonSchemaException] otherwise. *)
Definition validate_payload_element (instance : Instance) : Act unit :=
  match schema_validator cls instance with
  | None => ret tt
  | Some message => raise (ActionException message)
  end.

Definition check_permissions (payload : ActionData) : Act unit :=
  u <- read_user_id ;;
  _ <- modify (log_permission_call (name cls, u, payload)) ;;
  if negb (is_allowed ctx (name cls) u payload)
  then raise (PermissionDenied
                ("You are not allowed to perform action " +:+ name cls +:+ "."))
  else ret tt.

(** The inherited [get_updated_instances]: [yield from payload]. *)
Definition native_get_updated_instances (payload : ActionData) : Generator Instance :=
  iter_list payload.

(** [if fields:] for a dictionary. *)
Definition dict_truthy {K} `{Countable K} {V} (d : gmap K V) : bool :=
  match map_to_list d with [] => false | _ => true end.

Definition list_fields_truthy (lf : ListFields) : bool :=
  match lf_add lf, lf_remove lf with
  | None, None => false
  | _, _ => true
  end.

Definition build_write_request (type : EventType) (fqid : FullQualifiedId)
    (information : string) (fields : option Instance)
    (list_fields : option ListFields) : Act WriteRequest :=
  let event_fields :=
    match fields with
    | Some f => if dict_truthy f then Some f else None
    | None => None
    end in
  let event_list_fields :=
    match list_fields with
    | Some lf => if list_fields_truthy lf then Some lf else None
    | None => None
    end in
  u <- read_user_id ;;
  ret (mkWriteRequest [mkEvent type fqid event_fields event_list_fields]
                      {[ fqid := [information] ]} u ∅).

(** The body of the loop of [handle_relation_updates]. *)
Definition relation_update_write_request
    (item : FullQualifiedField * RelationUpdateElement) : Act WriteRequest :=
  let fqfield := item.1 in
  let fqid := mkFqid (fqfield_collection fqfield) (fqfield_id fqfield) in
  match item.2 with
  | FieldUpdateElement type val =>
      let fields : Instance := {[ fqfield_field fqfield := val ]} in
      let info_text :=
        match type with
        | Add => "Object attached to " +:+ fqfield_collection fqfield
        | Remove => "Object attachment to " +:+ fqfield_collection fqfield +:+ " reset"
        end in
      build_write_request Update fqid info_text (Some fields) None
  | ListUpdateElement add remove =>
      let list_fields_tmp :=
        mkListFields
          (if truthy (VList add)
           then Some {[ fqfield_field fqfield := VList add ]} else None)
          (if truthy (VList remove)
           then Some {[ fqfield_field fqfield := VList remove ]} else None) in
      build_write_request Update fqid "Object updated" None (Some list_fields_tmp)
  end.

Definition handle_relation_updates (instance : Instance) : Act (list WriteRequest) :=
  relation_updates <-
    get_relation_updates ctx (model cls) instance (name cls)
                         (additional_relation_models ctx) ;;
  mapM relation_update_write_request relation_updates.

(** The [defaultdict(list)] of process_write_requests. *)
Definition events_by_type_append (events_by_type : EventType → list Event)
    (event : Event) : EventType → list Event :=
  λ t, if decide (t = ev_type event)
       then events_by_type t ++ [event] else events_by_type t.

Definition sort_events (evs : list Event) : list Event :=
  let events_by_type := foldl events_by_type_append (λ _, []) evs in
  foldl (λ sorted type, sorted ++ events_by_type type) [] [Create; Update; Delete].

Definition process_write_requests : Act (option WriteRequest) :=
  λ s,
    match merge_write_requests (write_requests (self s)) with
    | Raise e => (Raise e, s)
    | Ok None => (Ok None, s)
    | Ok (Some write_request) =>
        let sorted := set_events write_request (sort_events (events write_request)) in
        let d := datastore (shared s) in
        (Ok (Some (set_locked_fields sorted (ds_locked_fields d))),
         set_datastore (set_ds_locked_fields ∅ d) s)
    end.

Definition fetch_model (fqid : FullQualifiedId) (mapped_fields : list string)
  : Act Instance :=
  match additional_relation_models ctx !! fqid with
  | Some additional_model =>
      match mapped_fields with
      | _ :: _ =>
          ret (foldl (λ (d : Instance) field,
                        <[ field := default VNone (additional_model !! field) ]> d)
                     ∅ mapped_fields)
      | [] => ret additional_model
      end
  | None => datastore_get fqid mapped_fields true
  end.

(** The first loop of [perform]. *)
Fixpoint validate_loop (payload : ActionData) : Act unit :=
  match payload with
  | [] => ret tt
  | element :: rest =>
      _ <- validate_payload_element element ;;
      _ <- increment_index ;;
      validate_loop rest
  end.

Definition extend_write_requests (l : list WriteRequest) : Act unit :=
  modify (λ s, set_write_requests (write_requests (self s) ++ l) s).

(** The body of the second loop of [perform]. *)
Definition process_instance (instance : Instance) : Act (option value) :=
  _ <- (match get_updated_instances cls with
        | None => increment_index
        | Some _ => ret tt
        end) ;;
  instance <- base_update_instance cls ctx instance ;;
  relation_updates <- handle_relation_updates instance ;;
  _ <- extend_write_requests relation_updates ;;
  write_request <- create_write_requests cls ctx instance ;;
  _ <- extend_write_requests write_request ;;
  create_action_result_element cls ctx instance.

Fixpoint instance_loop (instances : Generator Instance) (results : ActionResults)
  : Act ActionResults :=
  match instances with
  | Gen resume => λ s,
      match resume s with
      | (Raise e, s') => (Raise e, s')
      | (Ok None, s') => (Ok results, s')
      | (Ok (Some (instance, rest)), s') =>
          match process_instance instance s' with
          | (Raise e, s'') => (Raise e, s'')
          | (Ok result, s'') => instance_loop rest (results ++ [result]) s''
          end
      end
  end.

Definition perform (payload : ActionData) (user_id : Z) (internal : bool)
  : Act (option WriteRequest * ActionResults) :=
  _ <- modify (set_user_id user_id) ;;
  _ <- modify (set_index 0) ;;
  _ <- validate_loop payload ;;
  _ <- modify (set_index (-1)) ;;
  _ <- (if negb internal then check_permissions payload else ret tt) ;;
  let instances :=
    match get_updated_instances cls with
    | None => native_get_updated_instances payload
    | Some f => f ctx payload
    end in
  results <- instance_loop instances [] ;;
  final_write_request <- process_write_requests ;;
  ret (final_write_request, results).
End Methods.

(** [Action.execute_other_action]: the other action is constructed with the
    services, datastore and relation manager of this one, hence it runs on
    the same shared state with attributes of its own, and its write request,
    when there is one, is appended to the list of this action. In
    [{**a, **b, **c}] the later dictionaries win. *)
Definition execute_other_action (ctx : Context) (ActionClass_ : ActionClass)
    (payload : ActionData) (additional_relation_models_ : ModelMap)
  : Act (option WriteRequest * ActionResults) :=
  λ s,
    let action_ctx :=
      mkContext (is_allowed ctx) (get_relation_updates ctx)
        (additional_relation_models_ ∪
           (additional_relation_models ctx ∪
              ds_additional_relation_models (datastore (shared s)))) in
    match read_user_id s with
    | (Raise e, s0) => (Raise e, s0)
    | (Ok u, s0) =>
        match perform ActionClass_ action_ctx payload u true
                      (mkState (shared s0) new_self) with
        | (Raise e, s1) => (Raise e, mkState (shared s1) (self s0))
        | (Ok (write_request, action_results), s1) =>
            let s2 := mkState (shared s1) (self s0) in
            (Ok (write_request, action_results),
             match write_request with
             | Some w => set_write_requests (write_requests (self s2) ++ [w]) s2
             | None => s2
             end)
        end
    end.

(** ** list_of_speakers.delete_all_speakers

    The class derives from [DeleteAction] (action/generics/delete.py, outside
    the verified files), which is therefore a parameter; the class
    itself overrides [get_updated_instances] only. *)

(** [for speaker_id in value]: what iterating a value yields. *)
Definition iterate_value (v : value) : outcome (list value) :=
  match v with
  | VList l => Ok l
  | VStr s => Ok ((λ c, VStr (String c EmptyString)) <$> list_ascii_of_string s)
  | VDict d => Ok ((λ kv, VStr kv.1) <$> d)
  | _ => Raise (TypeError "object is not iterable")
  end.

Fixpoint delete_all_speakers_get_updated_instances (ctx : Context)
    (payload : ActionData) : Generator Instance :=
  match payload with
  | [] => gen_stop
  | instance :: rest =>
      Gen (λ s,
        match instance !! "id" with
        | None => (Raise (KeyError "id"), s)
        | Some (VInt id) =>
            match fetch_model ctx (mkFqid "list_of_speakers" id) ["speaker_ids"] s with
            | (Raise e, s') => (Raise e, s')
            | (Ok list_of_speakers, s') =>
                if truthy (default VNone (list_of_speakers !! "speaker_ids"))
                then
                  match iterate_value (default VNone (list_of_speakers !! "speaker_ids")) with
                  | Raise e => (Raise e, s')
                  | Ok speaker_ids =>
                      next (yield_from
                              ((λ speaker_id, ({[ "id" := speaker_id ]} : Instance))
                                 <$> speaker_ids)
                              (delete_all_speakers_get_updated_instances ctx rest)) s'
                  end
                else next (delete_all_speakers_get_updated_instances ctx rest) s'
            end
        | Some _ => (Raise (TypeError "id must be an integer"), s)
        end)
  end.

Definition ListOfSpeakersDeleteAllSpeakersAction (DeleteAction : ActionClass)
  : ActionClass :=
  mkActionClass "list_of_speakers.delete_all_speakers" "speaker"
    (schema_validator DeleteAction)
    (Some delete_all_speakers_get_updated_instances)
    (base_update_instance DeleteAction)
    (create_write_requests DeleteAction)
    (create_action_result_element DeleteAction).

(** ** validate_required_fields

    The model registry (models/base.py) is a parameter: a collection maps to
    the fields its model declares required, and [get_required_fields] may
    raise (the docstring names [NotImplementedError]). *)

Record Field := mkField { own_field_name : string }.
Record Model := mkModel { get_required_fields : outcome (list Field) }.
Abbreviation ModelRegistry := (gmap Collection Model).

(** One value of [fdict]: the keys "type" and "fields". *)
Record Folded := mkFolded {
  folded_type : EventType;
  folded_fields : Instance;
}.

(** [fdict] is iterated in insertion order, so it is an association list;
    assigning to a key that is present keeps its place. *)
Abbreviation Fdict := (list (FullQualifiedId * Folded)).

Fixpoint fdict_get (fdict : Fdict) (fqid : FullQualifiedId) : option Folded :=
  match fdict with
  | [] => None
  | (k, v) :: rest => if decide (k = fqid) then Some v else fdict_get rest fqid
  end.

Fixpoint fdict_set (fdict : Fdict) (fqid : FullQualifiedId) (v : Folded) : Fdict :=
  match fdict with
  | [] => [(fqid, v)]
  | (k, v0) :: rest =>
      if decide (k = fqid) then (k, v) :: rest else (k, v0) :: fdict_set rest fqid v
  end.

(** [event.get("fields", {})] *)
Definition event_fields (event : Event) : Instance := default ∅ (ev_fields event).

(** The body of the first loop; [d.update(e)] lets the entries of [e] win.
    The source updates in place the dictionary that the first event of the
    entity carries; the validation reads it through [fdict] only, and
    [fdict] is what is modelled, events being values that own their
    fields. *)
Definition fold_event (fdict : Fdict) (event : Event) : Fdict :=
  match fdict_get fdict (ev_fqid event) with
  | Some entry =>
      if decide (ev_type event = Delete)
      then fdict_set fdict (ev_fqid event) (mkFolded Delete (folded_fields entry))
      else fdict_set fdict (ev_fqid event)
             (mkFolded (folded_type entry) (event_fields event ∪ folded_fields entry))
  | None =>
      fdict_set fdict (ev_fqid event) (mkFolded (ev_type event) (event_fields event))
  end.

Definition fold_events (evs : list Event) : Fdict := foldl fold_event [] evs.

Definition registry_required_fields (model_registry : ModelRegistry)
    (collection : Collection) : outcome (list string) :=
  match model_registry !! collection with
  | None => Raise (KeyError collection)
  | Some m =>
      match get_required_fields m with
      | Ok fields => Ok (own_field_name <$> fields)
      | Raise e => Raise e
      end
  end.

Definition in_instance (instance : Instance) (field : string) : bool :=
  bool_decide (is_Some (instance !! field)).

(** [not instance[field]], evaluated only where the key is present. *)
Definition not_instance_at (instance : Instance) (field : string) : bool :=
  negb (truthy (default VNone (instance !! field))).

Definition create_condition (instance : Instance) (field : string) : bool :=
  negb (in_instance instance field)
  || (in_instance instance field && not_instance_at instance field).

Definition update_condition (instance : Instance) (field : string) : bool :=
  in_instance instance field && not_instance_at instance field.

(** The list [required_fields] computed for one item of [fdict]. *)
Definition required_fields_of (model_registry : ModelRegistry)
    (fqid : FullQualifiedId) (v : Folded) : outcome (list string * string) :=
  match folded_type v with
  | Create =>
      match registry_required_fields model_registry (fqid_collection fqid) with
      | Ok names =>
          Ok (List.filter (create_condition (folded_fields v)) names,
              "Creation of " +:+ str_fqid fqid)
      | Raise e => Raise e
      end
  | Update =>
      match registry_required_fields model_registry (fqid_collection fqid) with
      | Ok names =>
          Ok (List.filter (update_condition (folded_fields v)) names,
              "Update of " +:+ str_fqid fqid)
      | Raise e => Raise e
      end
  | Delete => Ok ([], "")
  end.

(** The second loop. *)
Fixpoint check_required (model_registry : ModelRegistry) (items : Fdict)
  : outcome unit :=
  match items with
  | [] => Ok tt
  | (fqid, v) :: rest =>
      match required_fields_of model_registry fqid v with
      | Raise e => Raise e
      | Ok ([], _) => check_required model_registry rest
      | Ok (required_fields, fqid_str) =>
          Raise (RequiredFieldsException fqid_str required_fields)
      end
  end.

Definition validate_required_fields (model_registry : ModelRegistry)
    (write_request : WriteRequest) : outcome unit :=
  check_required model_registry (fold_events (events write_request)).

(** * Predicates of the statements and sample data *)

(** ** Write requests to merge and to sort *)

Definition merge_error : Exception :=
  ValueError "You can not merge two write request elements of different users.".

Definition sample_fqid : FullQualifiedId := mkFqid "speaker" 1.

Definition sample_event (t : EventType) (id : Z) : Event :=
  mkEvent t (mkFqid "speaker" id) None None.

Definition sample_request (t : EventType) (id : Z) (user : Z) : WriteRequest :=
  mkWriteRequest [sample_event t id] {[ mkFqid "speaker" id := ["Object changed"] ]} user ∅.

Definition empty_datastore : Datastore := mkDatastore ∅ 1 ∅ ∅ [].

Definition unsorted_state : State :=
  mkState (mkShared empty_datastore [])
          (mkSelf (Some 1) (Some (-1))
             [sample_request Delete 1 1; sample_request Update 2 1;
              sample_request Create 3 1; sample_request Update 4 1]).

Definition two_users : list WriteRequest :=
  [sample_request Create 1 1; sample_request Update 2 7].

Definition no_events_one_user : list WriteRequest :=
  [mkWriteRequest [] ∅ 5 ∅; mkWriteRequest [] {[ sample_fqid := ["nothing"] ]} 5 ∅].

Definition no_events_two_users : list WriteRequest :=
  [mkWriteRequest [] ∅ 1 ∅; mkWriteRequest [] ∅ 2 ∅].

(** ** Valid payloads, quiet computations *)

Definition valid_payload (cls : ActionClass) (payload : ActionData) : Prop :=
  Forall (λ element, schema_validator cls element = None) payload.

(** A computation is quiet when it leaves the log of the permission service
    as it found it, whether it returns or raises. *)
Definition quiet {A} (m : Act A) : Prop :=
  ∀ s, permission_calls (shared (m s).2) = permission_calls (shared s).

Inductive quiet_generator {A} : Generator A → Prop :=
| quiet_Gen (resume : State → outcome (option (A * Generator A)) * State) :
    quiet resume →
    (∀ s x rest s', resume s = (Ok (Some (x, rest)), s') → quiet_generator rest) →
    quiet_generator (Gen resume).

Definition quiet_context (ctx : Context) : Prop :=
  ∀ m instance n arm, quiet (get_relation_updates ctx m instance n arm).

(** The methods of a subclass are quiet under every quiet context. *)
Record quiet_class (cls : ActionClass) : Prop := mkQuietClass {
  quiet_base_update_instance :
    ∀ ctx instance, quiet_context ctx → quiet (base_update_instance cls ctx instance);
  quiet_create_write_requests :
    ∀ ctx instance, quiet_context ctx → quiet (create_write_requests cls ctx instance);
  quiet_create_action_result_element :
    ∀ ctx instance, quiet_context ctx →
      quiet (create_action_result_element cls ctx instance);
  quiet_get_updated_instances :
    ∀ f ctx payload, quiet_context ctx → get_updated_instances cls = Some f →
      quiet_generator (f ctx payload);
}.

Definition permission_denied_message (cls : ActionClass) : string :=
  "You are not allowed to perform action " +:+ name cls +:+ ".".

(** ** Two composed actions

    A deleting action in the manner of the generic delete action, which
    reads the entity it deletes with a lock, and an action on a list of
    speakers that reads the list with a lock and runs the deleting action
    on every speaker of the list by [execute_other_action]. *)

Definition require_id (instance : Instance) : option string :=
  match instance !! "id" with
  | Some (VInt _) => None
  | _ => Some "data must contain ['id'] properties"
  end.

Definition SpeakerDelete : ActionClass :=
  mkActionClass "speaker.delete" "speaker" require_id None
    (λ _ instance, ret instance)
    (λ ctx instance,
       match instance !! "id" with
       | Some (VInt id) =>
           _ <- fetch_model ctx (mkFqid "speaker" id) ["list_of_speakers_id"] ;;
           w <- build_write_request Delete (mkFqid "speaker" id) "Object deleted"
                  None None ;;
           ret [w]
       | _ => raise (KeyError "id")
       end)
    (λ _ _, ret None).

Definition ListOfSpeakersClear : ActionClass :=
  mkActionClass "list_of_speakers.clear" "list_of_speakers" require_id None
    (λ _ instance, ret instance)
    (λ ctx instance,
       match instance !! "id" with
       | Some (VInt id) =>
           list_of_speakers <-
             fetch_model ctx (mkFqid "list_of_speakers" id) ["speaker_ids"] ;;
           match list_of_speakers !! "speaker_ids" with
           | Some (VList speaker_ids) =>
               _ <- execute_other_action ctx SpeakerDelete
                      ((λ speaker_id, ({[ "id" := speaker_id ]} : Instance))
                         <$> speaker_ids) ∅ ;;
               w <- build_write_request Update (mkFqid "list_of_speakers" id)
                      "Object updated" (Some {[ "closed" := VBool true ]}) None ;;
               ret [w]
           | _ => ret []
           end
       | _ => raise (KeyError "id")
       end)
    (λ _ _, ret None).

Definition no_relations (allowed : bool) : Context :=
  mkContext (λ _ _ _, allowed) (λ _ _ _ _, ret []) ∅.

Definition speakers_datastore : Datastore :=
  mkDatastore
    {[ mkFqid "list_of_speakers" 23 := {[ "speaker_ids" := VList [VInt 1] ]};
       mkFqid "speaker" 1 := {[ "list_of_speakers_id" := VInt 23 ]} ]}
    5 ∅ ∅ [].

Definition fresh_state (d : Datastore) : State := mkState (mkShared d []) new_self.

Definition clear_payload : ActionData := [ {[ "id" := VInt 23 ]} ].

(** ** Relation updates, additional models, lists without speakers *)

(** What the specification says of the write request made from one relation
    update element, for the acting user [u]. *)
Definition relation_write_request_spec (u : Z)
    (item : FullQualifiedField * RelationUpdateElement) (w : WriteRequest) : Prop :=
  let collection := fqfield_collection item.1 in
  let field := fqfield_field item.1 in
  let referenced := mkFqid collection (fqfield_id item.1) in
  ∃ event annotation,
    events w = [event]
    ∧ ev_type event = Update
    ∧ ev_fqid event = referenced
    ∧ information w = {[ referenced := [annotation] ]}
    ∧ user_id w = u
    ∧ locked_fields w = ∅
    ∧ match item.2 with
      | FieldUpdateElement Add val =>
          annotation = "Object attached to " +:+ collection
          ∧ ev_fields event = Some {[ field := val ]}
          ∧ ev_list_fields event = None
      | FieldUpdateElement Remove val =>
          annotation = "Object attachment to " +:+ collection +:+ " reset"
          ∧ ev_fields event = Some {[ field := val ]}
          ∧ ev_list_fields event = None
      | ListUpdateElement add remove =>
          annotation = "Object updated"
          ∧ ev_fields event = None
          ∧ match add, remove with
            | [], [] => ev_list_fields event = None
            | [], _ :: _ =>
                ev_list_fields event
                = Some (mkListFields None (Some {[ field := VList remove ]}))
            | _ :: _, [] =>
                ev_list_fields event
                = Some (mkListFields (Some {[ field := VList add ]}) None)
            | _ :: _, _ :: _ =>
                ev_list_fields event
                = Some (mkListFields (Some {[ field := VList add ]})
                                     (Some {[ field := VList remove ]}))
            end
      end.

Definition sample_updates : RelationUpdates :=
  [(mkFqfield "list_of_speakers" 23 "speaker_ids", ListUpdateElement [VInt 1] []);
   (mkFqfield "user" 7 "speaker_$7844_ids", ListUpdateElement [] []);
   (mkFqfield "meeting" 7844 "speaker_ids", FieldUpdateElement Add (VInt 1));
   (mkFqfield "motion" 3 "comment_id", FieldUpdateElement Remove VNone)].

Definition sample_relations : Context :=
  mkContext (λ _ _ _, true) (λ _ _ _ _, ret sample_updates) ∅.

Definition acting_state (u : Z) : State :=
  mkState (mkShared empty_datastore []) (mkSelf (Some u) (Some 0) []).

Definition pending_models : Context :=
  mkContext (λ _ _ _, true) (λ _ _ _ _, ret [])
    {[ mkFqid "list_of_speakers" 23 := {[ "speaker_ids" := VList [VInt 4] ;
                                           "closed" := VBool false ]} ]}.

(** The model that [fetch_model] finds for an fqid. *)
Definition stored_model (ctx : Context) (models : ModelMap) (fqid : FullQualifiedId)
  : option Instance :=
  match additional_relation_models ctx !! fqid with
  | Some m => Some m
  | None => models !! fqid
  end.

(** The payload element names a list of speakers whose [speaker_ids] is
    absent or the empty list. *)
Definition no_speakers (ctx : Context) (models : ModelMap) (element : Instance) : Prop :=
  ∃ id list_of_speakers,
    element !! "id" = Some (VInt id)
    ∧ stored_model ctx models (mkFqid "list_of_speakers" id) = Some list_of_speakers
    ∧ (list_of_speakers !! "speaker_ids" = None
       ∨ list_of_speakers !! "speaker_ids" = Some (VList [])).

Definition empty_list_datastore : Datastore :=
  mkDatastore
    {[ mkFqid "list_of_speakers" 23 := {[ "speaker_ids" := VList []; "meeting_id" := VInt 7844 ]};
       mkFqid "list_of_speakers" 24 := {[ "meeting_id" := VInt 7844 ]} ]}
    5 ∅ ∅ [].

Definition delete_all_payload : ActionData :=
  [ {[ "id" := VInt 23 ]}; {[ "id" := VInt 24 ]} ].

Definition clear_result : outcome (option WriteRequest * ActionResults) * State :=
  perform ListOfSpeakersClear (no_relations true) clear_payload 1 false
          (fresh_state speakers_datastore).

(** ** Folded views and required fields *)

Definition fdict_remove (x : FullQualifiedId) (fdict : Fdict) : Fdict :=
  filter (λ kv, kv.1 ≠ x) fdict.

(** What one more event makes of the entry of its entity. *)
Definition fold_entry (entry : option Folded) (event : Event) : Folded :=
  match entry with
  | Some old =>
      if decide (ev_type event = Delete)
      then mkFolded Delete (folded_fields old)
      else mkFolded (folded_type old) (event_fields event ∪ folded_fields old)
  | None => mkFolded (ev_type event) (event_fields event)
  end.

Definition no_obligation (model_registry : ModelRegistry)
    (kv : FullQualifiedId * Folded) : Prop :=
  ∃ label, required_fields_of model_registry kv.1 kv.2 = Ok ([], label).

(** The two conditions of the specification on a required field. *)
Definition absent_or_falsy (instance : Instance) (field : string) : Prop :=
  instance !! field = None
  ∨ ∃ val, instance !! field = Some val ∧ truthy val = false.

Definition present_and_falsy (instance : Instance) (field : string) : Prop :=
  ∃ val, instance !! field = Some val ∧ truthy val = false.

(** The outcome for the item [(fqid, v)] once the items before it have
    passed: the validation raises for a non-empty list of names, and goes on
    with the items after it otherwise. *)
Definition raises_or_passes (model_registry : ModelRegistry)
    (write_request : WriteRequest) (after : Fdict) (label : string)
    (required : list string) : Prop :=
  match required with
  | [] => validate_required_fields model_registry write_request
          = check_required model_registry after
  | _ :: _ => validate_required_fields model_registry write_request
              = Raise (RequiredFieldsException label required)
  end.

Definition speaker_registry : ModelRegistry :=
  {[ "speaker" := mkModel (Ok [mkField "list_of_speakers_id"; mkField "user_id"]) ]}.

Definition create_speaker (id : Z) (fields : Instance) : Event :=
  mkEvent Create (mkFqid "speaker" id) (Some fields) None.

Definition one_incomplete_creation : WriteRequest :=
  mkWriteRequest [create_speaker 1 {[ "user_id" := VInt 0; "weight" := VInt 3 ]}] ∅ 1 ∅.

Definition two_incomplete_creations : WriteRequest :=
  mkWriteRequest [create_speaker 1 ∅; create_speaker 2 {[ "user_id" := VInt 7 ]}] ∅ 1 ∅.

Definition created_updated_deleted : WriteRequest :=
  mkWriteRequest
    [create_speaker 1 {[ "weight" := VInt 1 ]};
     mkEvent Update (mkFqid "speaker" 1)
       (Some {[ "weight" := VInt 2; "user_id" := VNone ]}) None;
     mkEvent Delete (mkFqid "speaker" 1) None None]
    ∅ 1 ∅.

(** * Further methods and actions *)

(** ** Defaults of the base class

    [update_instance] returns the instance, [base_update_instance] calls it,
    [create_write_requests] raises [NotImplementedError], and
    [create_action_result_element] returns [None]. *)

Definition update_instance (instance : Instance) : Act Instance := ret instance.

Definition Action_defaults (action_name : string) (action_model : Collection)
    (validator : Instance → option string) : ActionClass :=
  mkActionClass action_name action_model validator None
    (λ _ instance, update_instance instance)
    (λ _ _, raise NotImplementedError)
    (λ _ _, ret None).

(** ** Consuming a generator: [list(generator)] *)

Fixpoint gen_to_list {A} (g : Generator A) (acc : list A) : Act (list A) :=
  match g with
  | Gen resume => λ s,
      match resume s with
      | (Raise e, s') => (Raise e, s')
      | (Ok None, s') => (Ok acc, s')
      | (Ok (Some (x, rest)), s') => gen_to_list rest (acc ++ [x]) s'
      end
  end.

(** ** Action.validate_fields

    The model of the action (models/base.py) is a parameter: [field_of name]
    is [None] when [has_field(name)] is false, and otherwise the [validate]
    method of [get_field(name)]. The loop runs over the keys of the instance
    in the order of the dictionary, which a [gmap] does not keep: the order
    is the argument [keys]. Assigning to a key that is present changes no
    key, so the loop sees the keys it started with. *)

Fixpoint validate_fields_loop (field_of : string → option (value → outcome value))
    (keys : list string) (instance : Instance) : outcome Instance :=
  match keys with
  | [] => Ok instance
  | field_name :: rest =>
      match field_of field_name with
      | Some validate =>
          match instance !! field_name with
          | Some v =>
              match validate v with
              | Ok v' => validate_fields_loop field_of rest (<[ field_name := v' ]> instance)
              | Raise e => Raise e
              end
          | None => Raise (KeyError field_name)
          end
      | None => validate_fields_loop field_of rest instance
      end
  end.

Definition validate_fields (field_of : string → option (value → outcome value))
    (keys : list string) (instance : Instance) : outcome Instance :=
  validate_fields_loop field_of keys instance.

(** ** agenda_item.create (action/actions/agenda_item/create.py)

    The constants [AgendaItem.HIDDEN_ITEM] and [AgendaItem.INTERNAL_ITEM]
    belong to the models; the comparisons [x == AgendaItem.HIDDEN_ITEM] and
    [x == AgendaItem.INTERNAL_ITEM] are the parameters [is_hidden_item] and
    [is_internal_item]. The method [update_instance] of the super class is
    the parameter [super_update_instance]. *)

(** [x + 1] for the values that have it. *)
Definition py_add_one (v : value) : outcome value :=
  match v with
  | VInt n => Ok (VInt (n + 1))
  | VBool b => Ok (VInt ((if b then 1 else 0) + 1))
  | _ => Raise (TypeError "unsupported operand type(s) for +")
  end.

(** [d.get(key) is None] *)
Definition get_is_none (d : Instance) (key : string) : bool :=
  match d !! key with
  | None | Some VNone => true
  | Some _ => false
  end.

Record AgendaItemTypes := mkAgendaItemTypes {
  is_hidden_item : value → bool;
  is_internal_item : value → bool;
}.

(** The parent of the first branch and the parent read in the second. *)
Definition agenda_item_parent (collection : Collection) (instance : Instance)
  : Act (Instance * Instance) :=
  if get_is_none instance "parent_id"
  then ret (({[ "is_hidden" := VBool false; "is_internal" := VBool false ]} : Instance),
            <[ "level" := VInt 0 ]> instance)
  else
    match instance !! "parent_id" with
    | Some (VInt parent_id) =>
        parent <- datastore_get (mkFqid collection parent_id)
                    ["is_hidden"; "is_internal"; "level"] false ;;
        level <- lift_outcome (py_add_one (default (VInt 0) (parent !! "level"))) ;;
        ret (parent, <[ "level" := level ]> instance)
    | _ => raise (TypeError "id must be an integer")
    end.

(** The body of the loop of [AgendaItemCreate.get_updated_instances]. *)
Definition agenda_item_enrich (types : AgendaItemTypes) (collection : Collection)
    (instance : Instance) : Act Instance :=
  pi <- agenda_item_parent collection instance ;;
  let parent := pi.1 in
  let instance1 := pi.2 in
  let instance2 :=
    <[ "is_hidden" :=
         if is_hidden_item types (default VNone (instance1 !! "type"))
         then VBool true
         else default (VBool false) (parent !! "is_hidden") ]> instance1 in
  let instance3 :=
    <[ "is_internal" :=
         if is_internal_item types (default VNone (instance2 !! "type"))
         then VBool true
         else default (VBool false) (parent !! "is_internal") ]> instance2 in
  ret instance3.

(** The method is no generator: its body runs when it is called, which in
    [perform] is right before the loop asks for the first instance; the
    payload it returns is then iterated. *)
Definition agenda_item_create_get_updated_instances (types : AgendaItemTypes)
    (collection : Collection) (payload : ActionData) : Generator Instance :=
  Gen (λ s,
    match mapM (agenda_item_enrich types collection) payload s with
    | (Ok payload', s') => next (iter_list payload') s'
    | (Raise e, s') => (Raise e, s')
    end).

Definition agenda_item_create_update_instance
    (super_update_instance : Instance → Act Instance) (instance : Instance)
  : Act Instance :=
  instance <- super_update_instance instance ;;
  if get_is_none instance "parent_id" then ret instance
  else
    match instance !! "parent_id" with
    | Some (VInt parent_id) =>
        parent <- datastore_get (mkFqid "agenda_item" parent_id) ["weight"] false ;;
        if get_is_none parent "weight" then ret instance
        else
          weight <- lift_outcome (py_add_one (default VNone (parent !! "weight"))) ;;
          ret (<[ "weight" := weight ]> instance)
    | _ => raise (TypeError "id must be an integer")
    end.

(** ** Predicates and sample data of the further properties *)

(** Runs a hypothesis about a sequence of binds up to its first failure. *)
Ltac run_binds H :=
  unfold bind, modify, ret in H;
  repeat match type of H with
         | context [let (_, _) := ?m in _] =>
             destruct m as [[?|?] ?] eqn:?; try discriminate H
         end.

(** The annotations of an entity in a list of write requests, in order. *)
Definition annotations (l : list WriteRequest) (fqid : FullQualifiedId) : list string :=
  concat ((λ w, default [] (information w !! fqid)) <$> l).

Definition annotated (l : list WriteRequest) (fqid : FullQualifiedId) : Prop :=
  Exists (λ w, is_Some (information w !! fqid)) l.

Definition merged_information (inf : gmap FullQualifiedId (list string))
    (l : list WriteRequest) : gmap FullQualifiedId (list string) :=
  foldl (λ acc w, merge_information acc (map_to_list (information w))) inf l.

(** The first of three optional models, as [{**c, **b, **a}] finds it. *)
Definition first_model (a b c : option Instance) : option Instance :=
  match a with
  | Some m => Some m
  | None => match b with Some m => Some m | None => c end
  end.

(** The distinct elements of a list in the order of their first
    occurrences. *)
Fixpoint first_occurrences (l : list FullQualifiedId) : list FullQualifiedId :=
  match l with
  | [] => []
  | x :: l' => x :: filter (λ y, y ≠ x) (first_occurrences l')
  end.

(** The payload element names a list of speakers that is stored with the
    speakers [ids] (none when [speaker_ids] is absent). *)
Definition has_speakers (ctx : Context) (models : ModelMap) (element : Instance)
    (ids : list value) : Prop :=
  ∃ id list_of_speakers,
    element !! "id" = Some (VInt id)
    ∧ stored_model ctx models (mkFqid "list_of_speakers" id) = Some list_of_speakers
    ∧ (list_of_speakers !! "speaker_ids" = Some (VList ids)
       ∨ (list_of_speakers !! "speaker_ids" = None ∧ ids = [])).

Definition delete_instance (speaker_id : value) : Instance := {[ "id" := speaker_id ]}.

(** A computation that neither locks, nor changes a stored model, an
    attribute of the action or the log of the permission service. *)
Definition reads_only {A} (m : Act A) : Prop :=
  ∀ s,
    ds_locked_fields (datastore (shared (m s).2)) = ds_locked_fields (datastore (shared s))
    ∧ ds_models (datastore (shared (m s).2)) = ds_models (datastore (shared s))
    ∧ self (m s).2 = self s
    ∧ permission_calls (shared (m s).2) = permission_calls (shared s).

(** The keys that [AgendaItemCreate.get_updated_instances] assigns. *)
Definition agenda_item_assigned : list string := ["level"; "is_hidden"; "is_internal"].

Definition agenda_item_sample_types : AgendaItemTypes :=
  mkAgendaItemTypes
    (λ v, match v with VInt n => Z.eqb n 3 | _ => false end)
    (λ v, match v with VInt n => Z.eqb n 2 | _ => false end).

Definition hidden_root_item : Instance := {[ "type" := VInt 3; "parent_id" := VNone ]}.

Definition child_item : Instance := {[ "parent_id" := VInt 5 ]}.

Definition agenda_parent : Instance :=
  {[ "level" := VInt 2; "is_hidden" := VBool true; "weight" := VInt 10 ]}.

Definition unvalidated_item : Instance := {[ "weight" := VInt 0; "title" := VStr "x" ]}.

Definition agenda_datastore : Datastore :=
  mkDatastore
    {[ mkFqid "agenda_item" 5 := agenda_parent ]}
    1 ∅ ∅ [].

(** The state after one unlocked read of [fqid]. *)
Definition after_read (fqid : FullQualifiedId) (mapped_fields : list string)
    (s : State) : State :=
  (datastore_get fqid mapped_fields false s).2.

Definition positive_weight (k : string) : option (value → outcome value) :=
  if String.eqb k "weight"
  then Some (λ v, match v with
                  | VInt n => if Z.ltb 0 n then Ok (VInt n)
                              else Raise (ActionException "weight must be positive")
                  | VStr _ => Ok (VInt 1)
                  | _ => Raise (ActionException "weight must be an integer")
                  end)
  else None.

(** * Properties *)

(** ** Merging *)

Section MergeLoop.
Implicit Types (l : list WriteRequest) (acc : MergeAcc).

Lemma merge_loop_same_user l acc u :
  acc_user_id acc = Some u →
  Forall (λ w, user_id w = u) l →
  ∃ inf, merge_loop l acc
         = Ok (mkMergeAcc (acc_events acc ++ concat (events <$> l)) inf (Some u)).
Proof.
  revert acc. induction l as [|w l IH]; intros acc Hu Hall; simpl.
  - exists (acc_information acc). rewrite app_nil_r. by destruct acc; simplify_eq/=.
  - inversion Hall as [|? ? Hw Hl]; subst. rewrite Hu.
    rewrite bool_decide_eq_false_2 by (intros Hne; by apply Hne).
    edestruct (IH (mkMergeAcc (acc_events acc ++ events w)
                     (merge_information (acc_information acc)
                        (map_to_list (information w)))
                     (Some (user_id w)))) as [inf Hinf]; [done..|].
    exists inf. rewrite Hinf. simpl. by rewrite <- app_assoc.
Qed.

Lemma merge_loop_other_user l acc u :
  acc_user_id acc = Some u →
  Exists (λ w, user_id w ≠ u) l →
  merge_loop l acc = Raise merge_error.
Proof.
  revert acc. induction l as [|w l IH]; intros acc Hu Hex; simpl.
  - inversion Hex.
  - rewrite Hu. destruct (decide (u = user_id w)) as [Heq|Hne].
    + rewrite bool_decide_eq_false_2 by (intros Hne; by apply Hne).
      apply IH; [done|]. inversion Hex as [? ? Hw|? ? Hl]; subst; [|done].
      by destruct Hw.
    + by rewrite bool_decide_eq_true_2.
Qed.
End MergeLoop.

Lemma merge_write_requests_same_user l u :
  Forall (λ w, user_id w = u) l →
  l ≠ [] →
  ∃ inf, merge_write_requests l
         = match concat (events <$> l) with
           | [] => Ok None
           | evs => Ok (Some (mkWriteRequest evs inf u ∅))
           end.
Proof.
  intros Hall Hne. destruct l as [|w l]; [done|].
  inversion Hall as [|? ? Hw Hl]; subst.
  unfold merge_write_requests.
  cbn [merge_loop acc_user_id acc_events acc_information app].
  edestruct (merge_loop_same_user l
               (mkMergeAcc (events w)
                  (merge_information ∅ (map_to_list (information w)))
                  (Some (user_id w)))) as [inf Hinf]; [done..|].
  exists inf. rewrite Hinf. cbn [acc_events acc_information acc_user_id].
  change (concat (events <$> w :: l)) with (events w ++ concat (events <$> l)).
  by destruct (events w ++ concat (events <$> l)).
Qed.

Lemma merge_write_requests_events l w :
  merge_write_requests l = Ok (Some w) →
  events w = concat (events <$> l) ∧ events w ≠ [] ∧ locked_fields w = ∅.
Proof.
  unfold merge_write_requests. intros H.
  destruct l as [|w0 l]; [done|]. simpl in H.
  destruct (decide (Forall (λ w, user_id w = user_id w0) l)) as [Hall|Hex].
  - edestruct (merge_loop_same_user l
                 (mkMergeAcc (events w0)
                    (merge_information ∅ (map_to_list (information w0)))
                    (Some (user_id w0)))) as [inf Hinf]; [done..|].
    rewrite Hinf in H. simpl in *.
    destruct (events w0 ++ concat (events <$> l)) eqn:Hev; by simplify_eq.
  - apply not_Forall_Exists in Hex; [|intros ?; apply _].
    erewrite merge_loop_other_user in H; [done..|].
    eapply Exists_impl; [exact Hex|]. by simpl.
Qed.

(** ** Sorting of the events *)

Lemma events_by_type_spec evs buckets t :
  foldl events_by_type_append buckets evs t
  = buckets t ++ filter (λ e, ev_type e = t) evs.
Proof.
  revert buckets. induction evs as [|e evs IH]; intros buckets; simpl.
  - by rewrite app_nil_r.
  - rewrite IH. unfold events_by_type_append at 1.
    rewrite filter_cons. destruct (decide (t = ev_type e)) as [->|Hne].
    + rewrite decide_True by done. by rewrite <- app_assoc.
    + by rewrite decide_False.
Qed.

Lemma sort_events_spec evs :
  sort_events evs
  = filter (λ e, ev_type e = Create) evs
    ++ filter (λ e, ev_type e = Update) evs
    ++ filter (λ e, ev_type e = Delete) evs.
Proof.
  unfold sort_events. simpl. rewrite !events_by_type_spec. simpl.
  by rewrite <- app_assoc.
Qed.

Lemma sort_events_perm evs : sort_events evs ≡ₚ evs.
Proof.
  rewrite sort_events_spec. induction evs as [|e evs IH]; [done|].
  rewrite !filter_cons. destruct e as [[] ? ? ?]; simpl.
  - by rewrite IH.
  - rewrite <- Permutation_middle. by rewrite IH.
  - rewrite app_assoc, <- Permutation_middle, <- app_assoc. by rewrite IH.
Qed.

(** C2. The events of a write request returned by [process_write_requests]
    are the events of the accumulated write requests, in the order of their
    production, with all Create events first, then all Update events, then
    all Delete events; within each kind the production order is kept, and
    no event is lost or duplicated. *)
Theorem process_write_requests_order (s s' : State) (write_request : WriteRequest) :
  process_write_requests s = (Ok (Some write_request), s') →
  let produced := concat (events <$> write_requests (self s)) in
  events write_request
  = filter (λ e, ev_type e = Create) produced
    ++ filter (λ e, ev_type e = Update) produced
    ++ filter (λ e, ev_type e = Delete) produced
  ∧ events write_request ≡ₚ produced
  ∧ events write_request ≠ [].
Proof.
  intros H produced. unfold process_write_requests in H.
  destruct (merge_write_requests (write_requests (self s))) as [[w|]|e] eqn:Hm;
    simplify_eq/=.
  apply merge_write_requests_events in Hm as (Hev & Hne & _). fold produced in Hev.
  rewrite Hev in Hne. rewrite Hev, sort_events_spec. split; [done|].
  rewrite <- sort_events_spec. split; [apply sort_events_perm|].
  intros Hnil. apply Hne. apply Permutation_nil_r.
  rewrite <- Hnil. symmetry. apply sort_events_perm.
Qed.

Lemma process_write_requests_order_witness :
  ∃ write_request s',
    process_write_requests unsorted_state = (Ok (Some write_request), s')
    ∧ events write_request
      = [sample_event Create 3; sample_event Update 2; sample_event Update 4;
         sample_event Delete 1].
Proof.
  destruct (process_write_requests unsorted_state) as [[[w|]|e] s'] eqn:H;
    try (vm_compute in H; discriminate H).
  exists w, s'. split; [reflexivity|].
  destruct (process_write_requests_order unsorted_state s' w H) as (Hev & _ & _).
  rewrite Hev. reflexivity.
Defined.

(** C3 (as amended). Merging fails with the [ValueError] of the source
    whenever two of the given write requests carry different user ids; it
    returns [None] for the empty list, and for every list without any event
    whose elements all carry the same user id. *)
Theorem merge_write_requests_users (l : list WriteRequest) :
  ((∃ i j wi wj, l !! i = Some wi ∧ l !! j = Some wj ∧ user_id wi ≠ user_id wj) →
   merge_write_requests l
   = Raise (ValueError "You can not merge two write request elements of different users."))
  ∧ merge_write_requests [] = Ok None
  ∧ ((∀ w1 w2, w1 ∈ l → w2 ∈ l → user_id w1 = user_id w2) →
     concat (events <$> l) = [] →
     merge_write_requests l = Ok None).
Proof.
  split; [|split; [done|]].
  - intros (i & j & wi & wj & Hi & Hj & Hne).
    destruct l as [|w0 l]; [done|].
    unfold merge_write_requests. cbn [merge_loop acc_user_id].
    rewrite merge_loop_other_user with (u := user_id w0); [done..|].
    destruct (decide (user_id wi = user_id w0)) as [Hi0|Hi0].
    + assert (user_id wj ≠ user_id w0) as Hj0 by congruence.
      destruct j as [|j]; [by simplify_eq/=|]. simpl in Hj.
      apply Exists_exists. exists wj. split; [|done].
      by eapply list_elem_of_lookup_2.
    + destruct i as [|i]; [by simplify_eq/=|]. simpl in Hi.
      apply Exists_exists. exists wi. split; [|done].
      by eapply list_elem_of_lookup_2.
  - intros Hsame Hnil. destruct l as [|w0 l]; [done|].
    destruct (merge_write_requests_same_user (w0 :: l) (user_id w0)) as [inf Hm];
      [|done|].
    + apply Forall_forall. intros w Hw. apply Hsame; [done|]. by left.
    + by rewrite Hm, Hnil.
Qed.

Lemma merge_write_requests_users_witness :
  merge_write_requests two_users
  = Raise (ValueError "You can not merge two write request elements of different users.")
  ∧ merge_write_requests no_events_one_user = Ok None.
Proof.
  split.
  - apply (proj1 (merge_write_requests_users two_users)).
    exists 0%nat, 1%nat, (sample_request Create 1 1), (sample_request Update 2 7).
    repeat split; [reflexivity..|]. simpl. lia.
  - apply (proj2 (proj2 (merge_write_requests_users no_events_one_user))).
    + intros w1 w2 H1 H2. unfold no_events_one_user in *.
      repeat (apply elem_of_cons in H1 as [->|H1]);
        repeat (apply elem_of_cons in H2 as [->|H2]);
        try reflexivity; try (by apply elem_of_nil in H1); by apply elem_of_nil in H2.
    + reflexivity.
Defined.

(** C3, as stated, fails: a list without any event whose elements carry two
    different user ids is not merged to [None]; the user check of the loop
    comes first and raises. *)
Lemma merge_write_requests_no_events_counterexample :
  concat (events <$> no_events_two_users) = []
  ∧ merge_write_requests no_events_two_users ≠ Ok None
  ∧ merge_write_requests no_events_two_users
    = Raise (ValueError "You can not merge two write request elements of different users.").
Proof. split; [reflexivity|]. split; [discriminate|reflexivity]. Qed.

(** ** Schema validation in [perform] *)

Lemma set_index_set_index i j s : set_index i (set_index j s) = set_index i s.
Proof. reflexivity. Qed.

Lemma validate_loop_valid cls payload s i :
  self_index (self s) = Some i →
  valid_payload cls payload →
  validate_loop cls payload s = (Ok tt, set_index (i + Z.of_nat (length payload)) s).
Proof.
  revert s i. induction payload as [|element rest IH]; intros s i Hi Hvalid.
  - simpl. unfold ret. f_equal. destruct s as [sh [u ix w]]. simpl in *.
    subst. unfold set_index, set_self. simpl. do 3 f_equal. lia.
  - inversion Hvalid as [|? ? Hel Hrest]; subst.
    cbn [validate_loop]. unfold bind, validate_payload_element. rewrite Hel.
    unfold ret at 1. unfold increment_index. rewrite Hi.
    rewrite (IH _ (i + 1)); [|done..].
    rewrite set_index_set_index. do 2 f_equal. rewrite length_cons. lia.
Qed.

Lemma validate_loop_invalid cls valid bad rest message s i :
  self_index (self s) = Some i →
  valid_payload cls valid →
  schema_validator cls bad = Some message →
  validate_loop cls (valid ++ bad :: rest) s
  = (Raise (ActionException message), set_index (i + Z.of_nat (length valid)) s).
Proof.
  revert s i. induction valid as [|element valid IH]; intros s i Hi Hvalid Hbad.
  - simpl. unfold bind, validate_payload_element. rewrite Hbad. unfold raise.
    f_equal. destruct s as [sh [u ix w]]. simpl in *. subst.
    unfold set_index, set_self. simpl. do 3 f_equal. lia.
  - inversion Hvalid as [|? ? Hel Hrest]; subst.
    cbn [validate_loop app]. unfold bind, validate_payload_element. rewrite Hel.
    unfold ret at 1. unfold increment_index. rewrite Hi.
    rewrite (IH _ (i + 1)); [|done..].
    rewrite set_index_set_index. do 2 f_equal. rewrite length_cons. lia.
Qed.

(** C4. An element that the compiled schema rejects makes
    [validate_payload_element] raise the exception that carries the message
    of the validator, without any change of state; and [perform] validates
    the elements in order before anything else: whatever the permission
    service, the relation manager and the methods of the subclass would do,
    it raises that exception for the first rejected element, and all it has
    changed by then are the attributes [user_id] and [index] (the cursor,
    which points to the rejected element). *)
Theorem perform_schema_violation (cls : ActionClass) (ctx : Context)
    (valid : ActionData) (bad : Instance) (rest : ActionData) (message : string)
    (user : Z) (internal : bool) (s : State) :
  valid_payload cls valid →
  schema_validator cls bad = Some message →
  validate_payload_element cls bad s = (Raise (ActionException message), s)
  ∧ (∀ element, (validate_payload_element cls element s).2 = s)
  ∧ perform cls ctx (valid ++ bad :: rest) user internal s
    = (Raise (ActionException message),
       set_index (Z.of_nat (length valid)) (set_user_id user s)).
Proof.
  intros Hvalid Hbad. split; [|split].
  - unfold validate_payload_element. by rewrite Hbad.
  - intros element. unfold validate_payload_element.
    by destruct (schema_validator cls element).
  - unfold perform, bind at 1 2 3, modify.
    rewrite (validate_loop_invalid cls valid bad rest message _ 0); [|done..].
    by rewrite set_index_set_index.
Qed.

(** ** Consultations of the permission service *)

Section Quiet.
Lemma quiet_ret {A} (a : A) : quiet (ret a).
Proof. by intros s. Qed.

Lemma quiet_raise {A} e : quiet (@raise State A e).
Proof. by intros s. Qed.

Lemma quiet_bind {A B} (m : Act A) (k : A → Act B) :
  quiet m → (∀ a, quiet (k a)) → quiet (bind m k).
Proof.
  intros Hm Hk s. unfold bind. specialize (Hm s).
  destruct (m s) as [[a|e] s1]; simpl in *; [|done].
  by rewrite Hk.
Qed.

Lemma quiet_modify f :
  (∀ s, permission_calls (shared (f s)) = permission_calls (shared s)) →
  quiet (modify f).
Proof. intros Hf s. apply Hf. Qed.

Lemma quiet_read_user_id : quiet read_user_id.
Proof. intros s. unfold read_user_id. by destruct (self_user_id (self s)). Qed.

Lemma quiet_increment_index : quiet increment_index.
Proof. intros s. unfold increment_index. by destruct (self_index (self s)). Qed.

Lemma quiet_extend_write_requests l : quiet (extend_write_requests l).
Proof. by intros s. Qed.

Lemma quiet_mapM {A B} (f : A → Act B) l : (∀ a, quiet (f a)) → quiet (mapM f l).
Proof.
  intros Hf. induction l as [|x l IH]; simpl; [apply quiet_ret|].
  apply quiet_bind; [done|]. intros y. apply quiet_bind; [done|].
  intros ys. apply quiet_ret.
Qed.

Lemma quiet_build_write_request t fqid info fields list_fields :
  quiet (build_write_request t fqid info fields list_fields).
Proof.
  unfold build_write_request. apply quiet_bind; [apply quiet_read_user_id|].
  intros u. apply quiet_ret.
Qed.

Lemma quiet_datastore_get fqid mapped_fields lock_result :
  quiet (datastore_get fqid mapped_fields lock_result).
Proof.
  intros s. unfold datastore_get.
  destruct (ds_models (datastore (shared s)) !! fqid); [|done].
  by destruct lock_result.
Qed.

Lemma quiet_fetch_model ctx fqid mapped_fields :
  quiet (fetch_model ctx fqid mapped_fields).
Proof.
  unfold fetch_model.
  destruct (additional_relation_models ctx !! fqid);
    [destruct mapped_fields; apply quiet_ret|apply quiet_datastore_get].
Qed.

Lemma quiet_handle_relation_updates cls ctx instance :
  quiet_context ctx → quiet (handle_relation_updates cls ctx instance).
Proof.
  intros Hctx. unfold handle_relation_updates. apply quiet_bind; [apply Hctx|].
  intros updates. apply quiet_mapM. intros [fqfield data].
  unfold relation_update_write_request.
  destruct data as [[]|]; apply quiet_build_write_request.
Qed.

Lemma quiet_validate_loop cls payload : quiet (validate_loop cls payload).
Proof.
  induction payload as [|element rest IH]; simpl; [apply quiet_ret|].
  apply quiet_bind.
  - unfold validate_payload_element.
    destruct (schema_validator cls element); [apply quiet_raise|apply quiet_ret].
  - intros _. apply quiet_bind; [apply quiet_increment_index|done].
Qed.

Lemma quiet_process_write_requests : quiet process_write_requests.
Proof.
  intros s. unfold process_write_requests.
  by destruct (merge_write_requests (write_requests (self s))) as [[w|]|e].
Qed.

Lemma quiet_process_instance cls ctx instance :
  quiet_context ctx → quiet_class cls → quiet (process_instance cls ctx instance).
Proof.
  intros Hctx [Hb Hc Hr _]. unfold process_instance.
  apply quiet_bind.
  { destruct (get_updated_instances cls);
      [apply quiet_ret|apply quiet_increment_index]. }
  intros _. apply quiet_bind; [by apply Hb|].
  intros instance'. apply quiet_bind; [by apply quiet_handle_relation_updates|].
  intros updates. apply quiet_bind; [apply quiet_extend_write_requests|].
  intros _. apply quiet_bind; [by apply Hc|].
  intros wrs. apply quiet_bind; [apply quiet_extend_write_requests|].
  intros _. by apply Hr.
Qed.

Lemma quiet_instance_loop cls ctx instances results :
  quiet_context ctx → quiet_class cls → quiet_generator instances →
  quiet (instance_loop cls ctx instances results).
Proof.
  intros Hctx Hcls Hgen. revert results.
  induction Hgen as [resume Hresume Hrest IH]. intros results s.
  cbn [instance_loop]. specialize (Hresume s).
  destruct (resume s) as [[[[instance rest]|]|e] s1] eqn:Hs; simpl in *; try done.
  pose proof (quiet_process_instance cls ctx instance Hctx Hcls s1) as Hp.
  destruct (process_instance cls ctx instance s1) as [[result|e] s2];
    simpl in *; [|congruence].
  rewrite (IH _ _ _ _ Hs). congruence.
Qed.

Lemma quiet_yield_from {A} (xs : list A) (k : Generator A) :
  quiet_generator k → quiet_generator (yield_from xs k).
Proof.
  intros Hk. induction xs as [|x xs IH]; simpl; [done|].
  constructor; [done|]. intros s y rest s' Heq. by simplify_eq.
Qed.

Lemma quiet_gen_stop {A} : quiet_generator (@gen_stop A).
Proof. constructor; [done|]. intros s x rest s' Heq. by simplify_eq. Qed.

Lemma quiet_next {A} (g : Generator A) : quiet_generator g → quiet (next g).
Proof. by intros [resume Hq _]. Qed.

(** An internal [perform] never touches the log. *)
Lemma quiet_perform_internal cls ctx payload user :
  quiet_context ctx → quiet_class cls → quiet (perform cls ctx payload user true).
Proof.
  intros Hctx Hcls. unfold perform.
  apply quiet_bind; [by apply quiet_modify|]. intros _.
  apply quiet_bind; [by apply quiet_modify|]. intros _.
  apply quiet_bind; [apply quiet_validate_loop|]. intros _.
  apply quiet_bind; [by apply quiet_modify|]. intros _.
  apply quiet_bind; [apply quiet_ret|]. intros _.
  apply quiet_bind.
  { apply quiet_instance_loop; [done..|].
    destruct (get_updated_instances cls) as [f|] eqn:Hf.
    - by eapply quiet_get_updated_instances.
    - apply quiet_yield_from, quiet_gen_stop. }
  intros results. apply quiet_bind; [apply quiet_process_write_requests|].
  intros w. apply quiet_ret.
Qed.

(** Hence a method may invoke other quiet actions and stay quiet. *)
Lemma quiet_execute_other_action ctx cls payload arm :
  quiet_context ctx → quiet_class cls →
  quiet (execute_other_action ctx cls payload arm).
Proof.
  intros Hctx Hcls s. unfold execute_other_action.
  pose proof (quiet_read_user_id s) as Hu.
  destruct (read_user_id s) as [[u|e] s0]; simpl in *; [|done].
  match goal with
  | |- context [perform cls ?c payload u true ?st] =>
      pose proof (quiet_perform_internal cls c payload u Hctx Hcls st) as Hp;
      destruct (perform cls c payload u true st) as [[[w results]|e] s1]
  end; simpl in *; [|congruence].
  destruct w; simpl; congruence.
Qed.
End Quiet.

(** C7. An internal [perform] does not consult the permission service: when
    the methods of the subclass and the relation manager do not consult it
    on their own, the log of consultations is after the call what it was
    before. An external [perform] of a valid payload for which the service
    answers no raises [PermissionDenied] right after the one consultation:
    whatever the methods of the subclass would do, none of them has run and
    the list of write requests of the action is untouched. *)
Theorem perform_permission (cls : ActionClass) (ctx : Context)
    (payload : ActionData) (user : Z) (s : State) :
  (quiet_context ctx → quiet_class cls →
   permission_calls (shared (perform cls ctx payload user true s).2)
   = permission_calls (shared s))
  ∧ (valid_payload cls payload →
     is_allowed ctx (name cls) user payload = false →
     perform cls ctx payload user false s
     = (Raise (PermissionDenied (permission_denied_message cls)),
        log_permission_call (name cls, user, payload)
          (set_index (-1) (set_user_id user s)))).
Proof.
  split.
  - intros Hctx Hcls. by apply quiet_perform_internal.
  - intros Hvalid Hdenied. unfold perform, bind at 1 2 3, modify.
    rewrite (validate_loop_valid cls payload _ 0); [|done..].
    unfold bind at 1 2. rewrite set_index_set_index. cbn [negb].
    unfold check_permissions, bind, read_user_id. cbn. by rewrite Hdenied.
Qed.

Lemma quiet_no_relations allowed : quiet_context (no_relations allowed).
Proof. by intros m instance n arm s. Qed.

Lemma quiet_SpeakerDelete : quiet_class SpeakerDelete.
Proof.
  split; simpl.
  - intros; apply quiet_ret.
  - intros ctx instance _. destruct (instance !! "id") as [[]|];
      try apply quiet_raise.
    apply quiet_bind; [apply quiet_fetch_model|]. intros _.
    apply quiet_bind; [apply quiet_build_write_request|]. intros w. apply quiet_ret.
  - intros; apply quiet_ret.
  - intros; discriminate.
Qed.

Lemma quiet_ListOfSpeakersClear : quiet_class ListOfSpeakersClear.
Proof.
  split; simpl.
  - intros; apply quiet_ret.
  - intros ctx instance Hctx. destruct (instance !! "id") as [[]|];
      try apply quiet_raise.
    apply quiet_bind; [apply quiet_fetch_model|]. intros los.
    destruct (los !! "speaker_ids") as [[]|]; try apply quiet_ret.
    apply quiet_bind.
    { apply quiet_execute_other_action; [done|apply quiet_SpeakerDelete]. }
    intros _. apply quiet_bind; [apply quiet_build_write_request|].
    intros w. apply quiet_ret.
  - intros; apply quiet_ret.
  - intros; discriminate.
Qed.

Lemma perform_permission_witness :
  permission_calls
    (shared (perform ListOfSpeakersClear (no_relations false) clear_payload 1 true
               (fresh_state speakers_datastore)).2) = []
  ∧ perform ListOfSpeakersClear (no_relations false) clear_payload 1 false
      (fresh_state speakers_datastore)
    = (Raise (PermissionDenied "You are not allowed to perform action list_of_speakers.clear."),
       log_permission_call ("list_of_speakers.clear", 1, clear_payload)
         (set_index (-1) (set_user_id 1 (fresh_state speakers_datastore)))).
Proof.
  split.
  - apply (proj1 (perform_permission ListOfSpeakersClear (no_relations false)
                    clear_payload 1 (fresh_state speakers_datastore))).
    + apply quiet_no_relations.
    + apply quiet_ListOfSpeakersClear.
  - apply (proj2 (perform_permission ListOfSpeakersClear (no_relations false)
                    clear_payload 1 (fresh_state speakers_datastore))).
    + repeat constructor.
    + reflexivity.
Defined.

Lemma perform_schema_violation_witness :
  perform ListOfSpeakersClear (no_relations true)
    (clear_payload ++ ({[ "title" := VStr "x" ]} : Instance) :: clear_payload) 1 false
    (fresh_state speakers_datastore)
  = (Raise (ActionException "data must contain ['id'] properties"),
     set_index 1 (set_user_id 1 (fresh_state speakers_datastore))).
Proof.
  apply (perform_schema_violation ListOfSpeakersClear (no_relations true)
           clear_payload {[ "title" := VStr "x" ]} clear_payload
           "data must contain ['id'] properties" 1 false
           (fresh_state speakers_datastore)).
  - repeat constructor.
  - reflexivity.
Defined.

(** ** Relation updates become update events *)

Lemma dict_truthy_singleton (k : string) (v : value) :
  dict_truthy ({[ k := v ]} : Instance) = true.
Proof. unfold dict_truthy. by rewrite map_to_list_singleton. Qed.

Lemma relation_update_write_request_spec u item s :
  self_user_id (self s) = Some u →
  ∃ w, relation_update_write_request item s = (Ok w, s)
       ∧ relation_write_request_spec u item w.
Proof.
  intros Hu. destruct item as [fqfield [[] val|add remove]];
    unfold relation_update_write_request, build_write_request, bind, read_user_id;
    cbn [fst snd]; rewrite ?dict_truthy_singleton, Hu.
  - eexists. split; [reflexivity|]. by eexists _, _.
  - eexists. split; [reflexivity|]. by eexists _, _.
  - eexists. split; [reflexivity|]. destruct add, remove; by eexists _, _.
Qed.

(** C8. Given the relation updates that the relation manager computed for
    an instance, [handle_relation_updates] yields one write request per
    relation update element, in their order; each holds exactly one event,
    of kind Update, on the entity that the fully qualified field names, with
    the annotation of the kind of the element, the scalar change for a field
    update, and for a list update the non-empty sides of add and remove
    only. *)
Theorem handle_relation_updates_spec (cls : ActionClass) (ctx : Context)
    (instance : Instance) (s s1 : State) (updates : RelationUpdates) (u : Z) :
  get_relation_updates ctx (model cls) instance (name cls)
    (additional_relation_models ctx) s = (Ok updates, s1) →
  self_user_id (self s1) = Some u →
  ∃ wrs, handle_relation_updates cls ctx instance s = (Ok wrs, s1)
         ∧ Forall2 (relation_write_request_spec u) updates wrs.
Proof.
  intros Hget Hu. unfold handle_relation_updates, bind at 1. rewrite Hget.
  clear Hget. induction updates as [|item updates IH].
  - exists []. by split; [|constructor].
  - destruct IH as (wrs & Hwrs & Hall).
    destruct (relation_update_write_request_spec u item s1 Hu) as (w & Hw & Hspec).
    exists (w :: wrs). split; [|by constructor].
    cbn [mapM]. unfold bind at 1. rewrite Hw. unfold bind at 1. by rewrite Hwrs.
Qed.

Lemma handle_relation_updates_spec_witness :
  ∃ wrs, handle_relation_updates SpeakerDelete sample_relations ∅ (acting_state 7)
         = (Ok wrs, acting_state 7)
         ∧ Forall2 (relation_write_request_spec 7) sample_updates wrs.
Proof.
  apply (handle_relation_updates_spec SpeakerDelete sample_relations ∅
           (acting_state 7) (acting_state 7) sample_updates 7).
  - reflexivity.
  - reflexivity.
Defined.

(** ** fetch_model *)

Lemma fetch_model_comprehension (additional_model : Instance)
    (mapped_fields : list string) (acc : Instance) (field : string) :
  foldl (λ (d : Instance) f, <[ f := default VNone (additional_model !! f) ]> d)
        acc mapped_fields !! field
  = if decide (field ∈ mapped_fields)
    then Some (default VNone (additional_model !! field))
    else acc !! field.
Proof.
  revert acc. induction mapped_fields as [|f fs IH]; intros acc; cbn [foldl].
  - by rewrite decide_False by apply not_elem_of_nil.
  - rewrite IH. destruct (decide (field ∈ fs)) as [Hin|Hnin].
    + rewrite decide_True; [done|by right].
    + destruct (decide (field = f)) as [->|Hne].
      * rewrite decide_True by left. by rewrite lookup_insert_eq.
      * rewrite decide_False.
        -- by rewrite lookup_insert_ne.
        -- intros Hin. apply elem_of_cons in Hin as [?|?]; done.
Qed.

(** C10. For an fqid of [additional_relation_models], [fetch_model] answers
    from that map and leaves the state as it is: no call of the datastore is
    logged and nothing enters the locked-fields registry; without mapped
    fields the answer is the stored model, with mapped fields it has exactly
    these keys, each with the stored value or [None]. For any other fqid,
    [fetch_model] is the single call of [datastore.get] with the same
    arguments and [lock_result] true. *)
Theorem fetch_model_spec (ctx : Context) (fqid : FullQualifiedId)
    (mapped_fields : list string) (s : State) :
  (∀ additional_model,
     additional_relation_models ctx !! fqid = Some additional_model →
     ∃ answer,
       fetch_model ctx fqid mapped_fields s = (Ok answer, s)
       ∧ (mapped_fields = [] → answer = additional_model)
       ∧ (mapped_fields ≠ [] →
          ∀ field, answer !! field
                   = if decide (field ∈ mapped_fields)
                     then Some (default VNone (additional_model !! field))
                     else None))
  ∧ (additional_relation_models ctx !! fqid = None →
     fetch_model ctx fqid mapped_fields s = datastore_get fqid mapped_fields true s
     ∧ ds_get_calls (datastore (shared (fetch_model ctx fqid mapped_fields s).2))
       = ds_get_calls (datastore (shared s)) ++ [(fqid, mapped_fields, true)]).
Proof.
  split.
  - intros additional_model Hin. unfold fetch_model. rewrite Hin.
    destruct mapped_fields as [|f fs].
    + exists additional_model. by repeat split.
    + eexists. split; [reflexivity|]. split; [done|].
      intros _ field. rewrite fetch_model_comprehension.
      by rewrite lookup_empty.
  - intros Hnot. unfold fetch_model. rewrite Hnot. split; [done|].
    unfold datastore_get.
    destruct (ds_models (datastore (shared s)) !! fqid); by simpl.
Qed.

Lemma fetch_model_spec_witness :
  (∃ answer,
     fetch_model pending_models (mkFqid "list_of_speakers" 23)
       ["speaker_ids"; "meeting_id"] (fresh_state speakers_datastore)
     = (Ok answer, fresh_state speakers_datastore)
     ∧ answer !! "speaker_ids" = Some (VList [VInt 4])
     ∧ answer !! "meeting_id" = Some VNone
     ∧ answer !! "closed" = None)
  ∧ ds_get_calls (datastore (shared
      (fetch_model pending_models (mkFqid "speaker" 1) ["list_of_speakers_id"]
         (fresh_state speakers_datastore)).2))
    = [(mkFqid "speaker" 1, ["list_of_speakers_id"], true)].
Proof.
  split.
  - destruct (proj1 (fetch_model_spec pending_models (mkFqid "list_of_speakers" 23)
                       ["speaker_ids"; "meeting_id"] (fresh_state speakers_datastore))
                _ eq_refl) as (answer & Heq & _ & Hfields).
    exists answer. split; [exact Heq|].
    rewrite !Hfields by discriminate. by repeat split.
  - apply (proj2 (fetch_model_spec pending_models (mkFqid "speaker" 1)
                    ["list_of_speakers_id"] (fresh_state speakers_datastore))).
    reflexivity.
Defined.

(** ** Deleting all speakers of a list without speakers *)

Lemma instance_loop_next cls ctx (g : Generator Instance) results s :
  instance_loop cls ctx g results s
  = match next g s with
    | (Raise e, s') => (Raise e, s')
    | (Ok None, s') => (Ok results, s')
    | (Ok (Some (instance, rest)), s') =>
        match process_instance cls ctx instance s' with
        | (Raise e, s'') => (Raise e, s'')
        | (Ok result, s'') => instance_loop cls ctx rest (results ++ [result]) s''
        end
    end.
Proof. by destruct g. Qed.

Lemma fetch_model_no_speakers ctx s id list_of_speakers :
  stored_model ctx (ds_models (datastore (shared s))) (mkFqid "list_of_speakers" id)
  = Some list_of_speakers →
  (list_of_speakers !! "speaker_ids" = None
   ∨ list_of_speakers !! "speaker_ids" = Some (VList [])) →
  ∃ answer s',
    fetch_model ctx (mkFqid "list_of_speakers" id) ["speaker_ids"] s = (Ok answer, s')
    ∧ truthy (default VNone (answer !! "speaker_ids")) = false
    ∧ ds_models (datastore (shared s')) = ds_models (datastore (shared s))
    ∧ self s' = self s.
Proof.
  unfold stored_model, fetch_model. intros Hstored Hempty.
  destruct (additional_relation_models ctx !! _) as [m|] eqn:Harm.
  - simplify_eq. eexists _, s. split; [reflexivity|]. split; [|done].
    cbn [foldl]. rewrite lookup_insert_eq. by destruct Hempty as [->| ->].
  - unfold datastore_get. rewrite Hstored. eexists _, _. split; [reflexivity|].
    split; [|done]. unfold restrict_fields.
    destruct (list_of_speakers !! "speaker_ids") as [v|] eqn:Hv.
    + erewrite (map_lookup_filter_Some_2 _ list_of_speakers "speaker_ids" v);
        [|done|by left]. by destruct Hempty as [?|?]; simplify_eq.
    + rewrite map_lookup_filter_None_2; [done|]. by left.
Qed.

Lemma delete_all_speakers_yields_nothing cls ctx payload results s :
  Forall (no_speakers ctx (ds_models (datastore (shared s)))) payload →
  ∃ s', instance_loop cls ctx (delete_all_speakers_get_updated_instances ctx payload)
          results s = (Ok results, s')
        ∧ self s' = self s.
Proof.
  revert s. induction payload as [|element rest IH]; intros s Hall.
  - by exists s.
  - inversion Hall as [|? ? Hel Hrest]; subst.
    destruct Hel as (id & los & Hid & Hstored & Hempty).
    destruct (fetch_model_no_speakers ctx s id los Hstored Hempty)
      as (answer & s1 & Hfetch & Hfalsy & Hmodels & Hself).
    rewrite <- Hmodels in Hrest. destruct (IH s1 Hrest) as (s' & Hloop & Hself').
    exists s'. split; [|congruence].
    rewrite instance_loop_next in Hloop. rewrite <- Hloop.
    cbn [delete_all_speakers_get_updated_instances instance_loop].
    by rewrite Hid, Hfetch, Hfalsy.
Qed.

(** C9. For [list_of_speakers.delete_all_speakers], whatever the generic
    delete action does with an instance: when every element of a valid,
    permitted payload names a list of speakers whose [speaker_ids] is the
    empty list or absent, the generator of [get_updated_instances] ends
    without yielding, the action has accumulated no write request, and
    [perform] returns [None] and no result. *)
Theorem delete_all_speakers_of_empty_list (DeleteAction : ActionClass)
    (ctx : Context) (payload : ActionData) (user : Z) (internal : bool) (s : State) :
  write_requests (self s) = [] →
  valid_payload DeleteAction payload →
  internal = true
  ∨ is_allowed ctx "list_of_speakers.delete_all_speakers" user payload = true →
  Forall (no_speakers ctx (ds_models (datastore (shared s)))) payload →
  ∃ s', perform (ListOfSpeakersDeleteAllSpeakersAction DeleteAction) ctx payload
          user internal s = (Ok (None, []), s')
        ∧ write_requests (self s') = [].
Proof.
  intros Hfresh Hvalid Hallowed Hempty.
  set (cls := ListOfSpeakersDeleteAllSpeakersAction DeleteAction).
  unfold perform, bind at 1 2 3, modify.
  rewrite (validate_loop_valid cls payload _ 0); [|done..].
  unfold bind at 1 2. rewrite !set_index_set_index.
  set (s0 := set_index (-1) (set_user_id user s)).
  assert (∃ s1, (if negb internal then check_permissions cls ctx payload else ret tt) s0
                = (Ok tt, s1)
                ∧ ds_models (datastore (shared s1)) = ds_models (datastore (shared s))
                ∧ write_requests (self s1) = []) as (s1 & Hperm & Hmodels & Hwr).
  { destruct internal; [by exists s0|]. destruct Hallowed as [?|Hallowed]; [done|].
    eexists. unfold check_permissions, bind, read_user_id. cbn.
    rewrite Hallowed. by split. }
  rewrite Hperm. unfold bind at 1. cbn [get_updated_instances cls
    ListOfSpeakersDeleteAllSpeakersAction].
  rewrite <- Hmodels in Hempty.
  destruct (delete_all_speakers_yields_nothing cls ctx payload [] s1 Hempty)
    as (s2 & Hloop & Hself).
  rewrite Hloop. unfold bind, process_write_requests.
  rewrite Hself, Hwr. cbn. exists s2. split; [done|]. by rewrite Hself.
Qed.

Lemma delete_all_speakers_of_empty_list_witness :
  ∃ s', perform (ListOfSpeakersDeleteAllSpeakersAction SpeakerDelete)
          (no_relations true) delete_all_payload 1 false
          (fresh_state empty_list_datastore) = (Ok (None, []), s')
        ∧ write_requests (self s') = [].
Proof.
  apply (delete_all_speakers_of_empty_list SpeakerDelete (no_relations true)
           delete_all_payload 1 false (fresh_state empty_list_datastore)).
  - reflexivity.
  - repeat constructor.
  - right. reflexivity.
  - repeat constructor.
    + exists 23, {[ "speaker_ids" := VList []; "meeting_id" := VInt 7844 ]}.
      split; [reflexivity|]. split; [reflexivity|]. right. reflexivity.
    + exists 24, {[ "meeting_id" := VInt 7844 ]}.
      split; [reflexivity|]. split; [reflexivity|]. left. reflexivity.
Defined.

(** With speakers on the list, the same action yields one instance per
    speaker and the delete action produces its events. *)
Example delete_all_speakers_of_one_speaker :
  ∃ w results s',
    perform (ListOfSpeakersDeleteAllSpeakersAction SpeakerDelete)
      (no_relations true) clear_payload 1 false (fresh_state speakers_datastore)
    = (Ok (Some w, results), s')
    ∧ events w = [mkEvent Delete (mkFqid "speaker" 1) None None]
    ∧ results = [None].
Proof. eexists _, _, _. split; [vm_compute; reflexivity|]. by split. Qed.

(** ** The locked fields of nested actions *)

(** C1 fails on the code. The action on list 23 reads the list with a lock,
    then runs the deleting action on speaker 1, which reads the speaker with
    a lock. The inner [perform] drains the registry into its own write
    request, and [merge_write_requests] builds the outer write request with
    empty locked fields: both locks of the two logged reads are in the
    write request of the inner action only, and neither in the returned
    write request nor in the registry. *)
Lemma nested_locked_fields_are_dropped :
  ∃ w results s',
    clear_result = (Ok (Some w, results), s')
    ∧ ds_get_calls (datastore (shared s'))
      = [(mkFqid "list_of_speakers" 23, ["speaker_ids"], true);
         (mkFqid "speaker" 1, ["list_of_speakers_id"], true)]
    ∧ locked_fields <$> write_requests (self s')
      = [ {[ "list_of_speakers/23/speaker_ids" := 5;
             "speaker/1/list_of_speakers_id" := 5 ]}; ∅ ]
    ∧ events w = [mkEvent Update (mkFqid "list_of_speakers" 23)
                    (Some {[ "closed" := VBool true ]}) None;
                  mkEvent Delete (mkFqid "speaker" 1) None None]
    ∧ locked_fields w = ∅
    ∧ ds_locked_fields (datastore (shared s')) = ∅.
Proof.
  eexists _, _, _. split; [vm_compute; reflexivity|].
  repeat split; vm_compute; reflexivity.
Qed.

(** When no event is produced the registry is not drained at all: the lock
    of the read stays in the registry after [perform] has returned. *)
Lemma locked_fields_stay_without_events :
  ∃ s',
    perform (ListOfSpeakersDeleteAllSpeakersAction SpeakerDelete)
      (no_relations true) [ {[ "id" := VInt 23 ]} ] 1 false
      (fresh_state empty_list_datastore) = (Ok (None, []), s')
    ∧ ds_locked_fields (datastore (shared s'))
      = {[ "list_of_speakers/23/speaker_ids" := 5 ]}.
Proof. eexists. split; vm_compute; reflexivity. Qed.

(** ** The folded view of the events *)

Section Fdict.
Implicit Types (fdict : Fdict) (k x : FullQualifiedId) (v : Folded).

Lemma fdict_get_set_eq fdict k v : fdict_get (fdict_set fdict k v) k = Some v.
Proof.
  induction fdict as [|[k0 v0] rest IH]; simpl.
  - by rewrite decide_True.
  - destruct (decide (k0 = k)) as [->|Hne]; simpl.
    + by rewrite decide_True.
    + by rewrite decide_False.
Qed.

Lemma fdict_get_set_ne fdict k k' v :
  k ≠ k' → fdict_get (fdict_set fdict k v) k' = fdict_get fdict k'.
Proof.
  intros Hne. induction fdict as [|[k0 v0] rest IH]; simpl.
  - by rewrite decide_False.
  - destruct (decide (k0 = k)) as [->|Hne0]; simpl.
    + by rewrite !decide_False.
    + by rewrite IH.
Qed.

Lemma fdict_get_None fdict k : fdict_get fdict k = None ↔ k ∉ fdict.*1.
Proof.
  induction fdict as [|[k0 v0] rest IH]; simpl.
  - split; [intros _; apply not_elem_of_nil|done].
  - rewrite not_elem_of_cons. destruct (decide (k0 = k)) as [->|Hne].
    + split; [done|]. by intros [? _].
    + rewrite IH. split; [by intros ?; split|by intros []].
Qed.

Lemma fdict_set_keys fdict k v :
  (fdict_set fdict k v).*1
  = if decide (k ∈ fdict.*1) then fdict.*1 else fdict.*1 ++ [k].
Proof.
  induction fdict as [|[k0 v0] rest IH]; cbn [fdict_set].
  - by rewrite decide_False by apply not_elem_of_nil.
  - destruct (decide (k0 = k)) as [->|Hne]; rewrite !fmap_cons; cbn [fst].
    + rewrite decide_True; [done|by left].
    + rewrite IH. destruct (decide (k ∈ rest.*1)) as [Hin|Hnin].
      * rewrite decide_True; [done|by right].
      * rewrite decide_False; [done|].
        intros Hin. apply elem_of_cons in Hin as [?|?]; done.
Qed.

Lemma fdict_set_NoDup fdict k v : NoDup fdict.*1 → NoDup (fdict_set fdict k v).*1.
Proof.
  intros Hnd. rewrite fdict_set_keys. destruct (decide (k ∈ fdict.*1)); [done|].
  apply NoDup_app. split; [done|]. split; [|apply NoDup_singleton].
  intros y Hy Hk. apply list_elem_of_singleton in Hk. by subst.
Qed.

Lemma fdict_get_elem_of fdict k v :
  NoDup fdict.*1 → (k, v) ∈ fdict → fdict_get fdict k = Some v.
Proof.
  induction fdict as [|[k0 v0] rest IH]; simpl; intros Hnd Hin.
  - by apply elem_of_nil in Hin.
  - apply NoDup_cons in Hnd as [Hk0 Hnd].
    apply elem_of_cons in Hin as [Heq|Hin].
    + simplify_eq. by rewrite decide_True.
    + rewrite decide_False; [by apply IH|].
      intros ->. apply Hk0. apply list_elem_of_fmap. by exists (k, v).
Qed.

Lemma fdict_get_remove fdict k x :
  k ≠ x → fdict_get (fdict_remove x fdict) k = fdict_get fdict k.
Proof.
  intros Hne. unfold fdict_remove.
  induction fdict as [|[k0 v0] rest IH]; [done|].
  rewrite filter_cons. simpl. destruct (decide (k0 ≠ x)) as [Hk|Hk]; simpl.
  - by rewrite IH.
  - apply dec_stable in Hk. subst. by rewrite decide_False.
Qed.

Lemma fdict_remove_set_ne fdict k x v :
  k ≠ x →
  fdict_remove x (fdict_set fdict k v) = fdict_set (fdict_remove x fdict) k v.
Proof.
  intros Hne. unfold fdict_remove.
  induction fdict as [|[k0 v0] rest IH]; cbn [fdict_set].
  - rewrite filter_cons, filter_nil. cbn [fst fdict_set]. by case_decide.
  - destruct (decide (k0 = k)) as [->|Hne0].
    + rewrite !filter_cons. cbn [fst]. case_decide; [|done].
      cbn [fdict_set]. by rewrite decide_True.
    + rewrite !filter_cons. cbn [fst]. case_decide; [|done].
      cbn [fdict_set]. rewrite decide_False by done. by rewrite IH.
Qed.

Lemma fdict_remove_set_eq fdict x v :
  fdict_remove x (fdict_set fdict x v) = fdict_remove x fdict.
Proof.
  unfold fdict_remove. induction fdict as [|[k0 v0] rest IH]; cbn [fdict_set].
  - rewrite filter_cons, filter_nil. cbn [fst]. by case_decide.
  - destruct (decide (k0 = x)) as [->|Hne0].
    + rewrite !filter_cons. cbn [fst]. by case_decide.
    + rewrite !filter_cons. cbn [fst]. case_decide; [|done]. by rewrite IH.
Qed.
End Fdict.

Lemma fold_event_eq fdict event :
  fold_event fdict event
  = fdict_set fdict (ev_fqid event)
      (fold_entry (fdict_get fdict (ev_fqid event)) event).
Proof.
  unfold fold_event, fold_entry.
  destruct (fdict_get fdict (ev_fqid event)); [|done].
  by destruct (decide (ev_type event = Delete)).
Qed.

Lemma fold_event_get fdict event x :
  fdict_get (fold_event fdict event) x
  = if decide (ev_fqid event = x)
    then Some (fold_entry (fdict_get fdict x) event)
    else fdict_get fdict x.
Proof.
  rewrite fold_event_eq. destruct (decide (ev_fqid event = x)) as [<-|Hne].
  - apply fdict_get_set_eq.
  - by apply fdict_get_set_ne.
Qed.

Lemma fold_events_NoDup fdict evs :
  NoDup fdict.*1 → NoDup (foldl fold_event fdict evs).*1.
Proof.
  revert fdict. induction evs as [|e evs IH]; intros fdict Hnd; [done|].
  simpl. apply IH. rewrite fold_event_eq. by apply fdict_set_NoDup.
Qed.

Lemma fold_events_remove fdict evs x :
  fdict_remove x (foldl fold_event fdict evs)
  = foldl fold_event (fdict_remove x fdict) (filter (λ e, ev_fqid e ≠ x) evs).
Proof.
  revert fdict. induction evs as [|e evs IH]; intros fdict; [done|].
  rewrite filter_cons. cbn [foldl]. rewrite IH.
  destruct (decide (ev_fqid e ≠ x)) as [Hne|Heq].
  - cbn [foldl]. f_equal. rewrite !fold_event_eq.
    rewrite fdict_remove_set_ne by done. by rewrite fdict_get_remove.
  - apply dec_stable in Heq. subst. f_equal.
    rewrite fold_event_eq. apply fdict_remove_set_eq.
Qed.

Lemma fold_entry_type entry event :
  folded_type (fold_entry entry event) = Delete
  ↔ (∃ old, entry = Some old ∧ folded_type old = Delete) ∨ ev_type event = Delete.
Proof.
  unfold fold_entry. destruct entry as [old|].
  - destruct (decide (ev_type event = Delete)) as [Hd|Hd]; simpl.
    + split; [by right|done].
    + split; [intros; left; by exists old|]. intros [(? & ? & ?)|?]; by simplify_eq.
  - simpl. split; [by right|]. by intros [(? & ? & ?)|?].
Qed.

Lemma fold_events_type fdict evs x v :
  fdict_get (foldl fold_event fdict evs) x = Some v →
  folded_type v = Delete
  ↔ (∃ v0, fdict_get fdict x = Some v0 ∧ folded_type v0 = Delete)
    ∨ (∃ e, e ∈ evs ∧ ev_fqid e = x ∧ ev_type e = Delete).
Proof.
  revert fdict. induction evs as [|e evs IH]; intros fdict Hget.
  - simpl in Hget. split.
    + intros Hd. left. by exists v.
    + intros [(v0 & Hv0 & Hd)|(e & He & _)]; [congruence|by apply elem_of_nil in He].
  - cbn [foldl] in Hget. rewrite (IH _ Hget). rewrite fold_event_get.
    destruct (decide (ev_fqid e = x)) as [Hx|Hx].
    + split.
      * intros [(v0 & Hv0 & Hd)|(e' & He' & Hx' & Hd)].
        -- simplify_eq. apply fold_entry_type in Hd as [(old & Hold & Hd)|Hd].
           ++ left. by exists old.
           ++ right. exists e. split; [by left|done].
        -- right. exists e'. split; [by right|done].
      * intros [(v0 & Hv0 & Hd)|(e' & He' & Hx' & Hd)].
        -- left. eexists. split; [done|]. apply fold_entry_type. left. by exists v0.
        -- apply elem_of_cons in He' as [->|He'].
           ++ left. eexists. split; [done|]. apply fold_entry_type. by right.
           ++ right. by exists e'.
    + split.
      * intros [?|(e' & He' & Hx' & Hd)]; [by left|].
        right. exists e'. split; [by right|done].
      * intros [?|(e' & He' & Hx' & Hd)]; [by left|].
        apply elem_of_cons in He' as [->|He']; [done|]. right. by exists e'.
Qed.

Lemma fold_events_get_None fdict evs x :
  fdict_get fdict x = None →
  (∀ e, e ∈ evs → ev_fqid e ≠ x) →
  fdict_get (foldl fold_event fdict evs) x = None.
Proof.
  revert fdict. induction evs as [|e evs IH]; intros fdict Hnone Hall; [done|].
  cbn [foldl]. apply IH.
  - rewrite fold_event_get. rewrite decide_False; [done|]. apply Hall. by left.
  - intros e' He'. apply Hall. by right.
Qed.

Lemma fold_events_field_kept fdict evs x f val :
  (∃ v, fdict_get fdict x = Some v ∧ folded_fields v !! f = Some val) →
  (∀ e, e ∈ evs → ev_fqid e = x → ev_type e ≠ Delete → event_fields e !! f = None) →
  ∃ v, fdict_get (foldl fold_event fdict evs) x = Some v
       ∧ folded_fields v !! f = Some val.
Proof.
  revert fdict. induction evs as [|e evs IH]; intros fdict Hv Hall; [done|].
  cbn [foldl]. apply IH; [|intros e' He'; apply Hall; by right].
  destruct Hv as (v & Hget & Hf). rewrite fold_event_get.
  destruct (decide (ev_fqid e = x)) as [Hx|Hx]; [|by exists v].
  eexists. split; [done|]. rewrite Hget. unfold fold_entry.
  destruct (decide (ev_type e = Delete)) as [Hd|Hd]; simpl; [done|].
  rewrite lookup_union_r; [done|]. apply Hall; [by left|done..].
Qed.

(** ** Required fields *)

Lemma check_required_app model_registry before rest :
  Forall (no_obligation model_registry) before →
  check_required model_registry (before ++ rest) = check_required model_registry rest.
Proof.
  induction 1 as [|[k v] before [label Hkv] _ IH]; [done|].
  simpl in *. by rewrite Hkv.
Qed.

Lemma check_required_remove model_registry fdict x :
  Forall (λ kv, kv.1 = x → folded_type kv.2 = Delete) fdict →
  check_required model_registry (fdict_remove x fdict)
  = check_required model_registry fdict.
Proof.
  unfold fdict_remove. induction 1 as [|[k v] rest Hkv _ IH]; [done|].
  rewrite filter_cons. cbn [fst snd] in *. case_decide as Hk.
  - cbn [check_required]. by rewrite IH.
  - rewrite IH. cbn [check_required].
    unfold required_fields_of. by rewrite (Hkv Hk).
Qed.

(** C6. In the folded view of the events of a write request, the entry of
    an entity has kind Delete exactly when one of the events of the entity
    is a Delete; a field has the value that the last event setting it gave
    it (among the first event of the entity and its later events other than
    Delete); and an entity with a Delete event has no part in the outcome
    of the validation, which is the outcome for the same events without
    those of the entity. *)
Theorem fold_events_delete_supersedes (model_registry : ModelRegistry)
    (write_request : WriteRequest) (x : FullQualifiedId) :
  (∀ v, fdict_get (fold_events (events write_request)) x = Some v →
        folded_type v = Delete
        ↔ ∃ e, e ∈ events write_request ∧ ev_fqid e = x ∧ ev_type e = Delete)
  ∧ (∀ earlier e later f val,
       events write_request = earlier ++ e :: later →
       ev_fqid e = x →
       event_fields e !! f = Some val →
       ev_type e ≠ Delete ∨ (∀ e', e' ∈ earlier → ev_fqid e' ≠ x) →
       (∀ e', e' ∈ later → ev_fqid e' = x → ev_type e' ≠ Delete →
              event_fields e' !! f = None) →
       ∃ v, fdict_get (fold_events (events write_request)) x = Some v
            ∧ folded_fields v !! f = Some val)
  ∧ ((∃ e, e ∈ events write_request ∧ ev_fqid e = x ∧ ev_type e = Delete) →
     validate_required_fields model_registry write_request
     = validate_required_fields model_registry
         (set_events write_request
            (filter (λ e, ev_fqid e ≠ x) (events write_request)))).
Proof.
  split; [|split].
  - intros v Hget. unfold fold_events in Hget.
    rewrite (fold_events_type _ _ _ _ Hget). split; [|by right].
    by intros [(v0 & ? & _)|?].
  - intros earlier e later f val Hevs Hx Hf Hfirst Hlast.
    unfold fold_events. rewrite Hevs, foldl_app. cbn [foldl].
    apply fold_events_field_kept; [|done].
    rewrite fold_event_get, decide_True by done. eexists. split; [done|].
    unfold fold_entry.
    destruct (fdict_get (foldl fold_event [] earlier) x) as [old|] eqn:Hold;
      [|done].
    destruct (decide (ev_type e = Delete)) as [Hd|Hd]; simpl.
    + destruct Hfirst as [?|Hfirst]; [done|].
      by rewrite fold_events_get_None in Hold.
    + by apply lookup_union_Some_l.
  - intros Hdelete. unfold validate_required_fields, fold_events.
    cbn [events set_events].
    pose proof (fold_events_remove [] (events write_request) x) as Hremove.
    change (fdict_remove x []) with (@nil (FullQualifiedId * Folded)) in Hremove.
    rewrite <- Hremove, check_required_remove; [done|].
    apply Forall_forall. intros [k v] Hin Hk. cbn [fst snd] in *. subst k.
    apply fdict_get_elem_of in Hin; [|apply fold_events_NoDup, NoDup_nil_2].
    rewrite (fold_events_type _ _ _ _ Hin). by right.
Qed.

Lemma create_condition_spec instance field :
  create_condition instance field = true ↔ absent_or_falsy instance field.
Proof.
  unfold create_condition, in_instance, not_instance_at, absent_or_falsy.
  destruct (instance !! field) as [val|].
  - rewrite bool_decide_eq_true_2 by done. cbn. rewrite negb_true_iff.
    split; [intros; right; by exists val|]. intros [?|(? & ? & ?)]; by simplify_eq.
  - rewrite bool_decide_eq_false_2 by (by intros [? ?]). split; [by left|done].
Qed.

Lemma update_condition_spec instance field :
  update_condition instance field = true ↔ present_and_falsy instance field.
Proof.
  unfold update_condition, in_instance, not_instance_at, present_and_falsy.
  destruct (instance !! field) as [val|].
  - rewrite bool_decide_eq_true_2 by done. cbn. rewrite negb_true_iff.
    split; [intros; by exists val|]. intros (? & ? & ?); by simplify_eq.
  - rewrite bool_decide_eq_false_2 by (by intros [? ?]).
    split; [done|]. by intros (? & ? & ?).
Qed.

Lemma list_filter_nil {A} (p : A → bool) (l : list A) :
  (∀ a, a ∈ l → p a = false) → List.filter p l = [].
Proof.
  induction l as [|a l IH]; intros Hall; [done|]. simpl.
  rewrite (Hall a) by left. apply IH. intros b Hb. apply Hall. by right.
Qed.

Lemma list_filter_sublist {A} (p : A → bool) (l : list A) :
  sublist (List.filter p l) l.
Proof.
  induction l as [|a l IH]; simpl; [constructor|].
  destruct (p a); by constructor.
Qed.

Lemma elem_of_list_filter {A} (p : A → bool) (l : list A) (a : A) :
  a ∈ List.filter p l ↔ a ∈ l ∧ p a = true.
Proof. rewrite !list_elem_of_In. apply filter_In. Qed.

Lemma check_required_ok model_registry fdict :
  check_required model_registry fdict = Ok tt
  ↔ Forall (no_obligation model_registry) fdict.
Proof.
  induction fdict as [|[k v] rest IH]; cbn [check_required].
  - split; [constructor|done].
  - rewrite Forall_cons, <- IH. unfold no_obligation. cbn [fst snd].
    destruct (required_fields_of model_registry k v) as [[[|f fs] label]|e].
    + split; [intros; split; [by exists label|done]|by intros [_ ?]].
    + split; [done|]. by intros [[? ?] _].
    + split; [done|]. by intros [[? ?] _].
Qed.

(** C5 (as amended). The validation succeeds exactly when no entry of the
    folded view has an offending field. Let [(fqid, v)] be an entry such
    that the entries before it raise nothing, and let [names] be the
    required fields that the model of its collection declares. If the entry
    is a Create, the names that are absent from its fields or falsy in them,
    in declaration order, are raised in a [RequiredFieldsException] for the
    creation of [fqid] when there is one, and the validation passes on to
    the later entries when there is none. If it is an Update, the same holds
    with the names that are present with a falsy value; in particular an
    Update in which every required field is absent raises nothing. *)
Theorem validate_required_fields_spec (model_registry : ModelRegistry)
    (write_request : WriteRequest) (before after : Fdict)
    (fqid : FullQualifiedId) (v : Folded) (names : list string) :
  fold_events (events write_request) = before ++ (fqid, v) :: after →
  Forall (no_obligation model_registry) before →
  registry_required_fields model_registry (fqid_collection fqid) = Ok names →
  (folded_type v = Create →
   ∃ required,
     (∀ f, f ∈ required ↔ f ∈ names ∧ absent_or_falsy (folded_fields v) f)
     ∧ sublist required names
     ∧ raises_or_passes model_registry write_request after
         ("Creation of " +:+ str_fqid fqid) required)
  ∧ (folded_type v = Update →
     ∃ required,
       (∀ f, f ∈ required ↔ f ∈ names ∧ present_and_falsy (folded_fields v) f)
       ∧ sublist required names
       ∧ raises_or_passes model_registry write_request after
           ("Update of " +:+ str_fqid fqid) required)
  ∧ (folded_type v = Update →
     (∀ f, f ∈ names → folded_fields v !! f = None) →
     validate_required_fields model_registry write_request
     = check_required model_registry after)
  ∧ (validate_required_fields model_registry write_request = Ok tt
     ↔ Forall (no_obligation model_registry) (fold_events (events write_request))).
Proof.
  intros Hfold Hbefore Hnames.
  assert (validate_required_fields model_registry write_request
          = check_required model_registry ((fqid, v) :: after)) as Hvalidate.
  { unfold validate_required_fields. rewrite Hfold. by apply check_required_app. }
  assert (∀ t p label,
            folded_type v = t →
            required_fields_of model_registry fqid v
            = Ok (List.filter p names, label) →
            raises_or_passes model_registry write_request after label
              (List.filter p names)) as Hraise.
  { intros t p label Ht Hreq. unfold raises_or_passes. rewrite Hvalidate.
    cbn [check_required]. rewrite Hreq. by destruct (List.filter p names). }
  split; [|split; [|split; [|apply check_required_ok]]].
  - intros Ht. exists (List.filter (create_condition (folded_fields v)) names).
    split; [|split; [apply list_filter_sublist|]].
    + intros f. rewrite elem_of_list_filter. by rewrite create_condition_spec.
    + apply (Hraise Create); [done|]. unfold required_fields_of.
      by rewrite Ht, Hnames.
  - intros Ht. exists (List.filter (update_condition (folded_fields v)) names).
    split; [|split; [apply list_filter_sublist|]].
    + intros f. rewrite elem_of_list_filter. by rewrite update_condition_spec.
    + apply (Hraise Update); [done|]. unfold required_fields_of.
      by rewrite Ht, Hnames.
  - intros Ht Habsent. rewrite Hvalidate. cbn [check_required].
    unfold required_fields_of. rewrite Ht, Hnames.
    rewrite list_filter_nil; [done|].
    intros f Hf. unfold update_condition, in_instance.
    rewrite (Habsent f Hf). by rewrite bool_decide_eq_false_2 by (by intros [? ?]).
Qed.

Lemma validate_required_fields_spec_witness :
  ∃ required,
    (∀ f, f ∈ required
          ↔ f ∈ ["list_of_speakers_id"; "user_id"]
            ∧ absent_or_falsy {[ "user_id" := VInt 0; "weight" := VInt 3 ]} f)
    ∧ sublist required ["list_of_speakers_id"; "user_id"]
    ∧ raises_or_passes speaker_registry one_incomplete_creation []
        "Creation of speaker/1" required.
Proof.
  apply (proj1 (validate_required_fields_spec speaker_registry
                  one_incomplete_creation [] [] (mkFqid "speaker" 1)
                  (mkFolded Create {[ "user_id" := VInt 0; "weight" := VInt 3 ]})
                  ["list_of_speakers_id"; "user_id"]
                  eq_refl (Forall_nil_2 _) eq_refl)).
  reflexivity.
Defined.

(** C5, as stated, fails for a folded Create that is not the first entry
    with an offending field: speaker/2 lacks [list_of_speakers_id] only, but
    the exception raised is the one for speaker/1 and names both fields. *)
Lemma validate_required_fields_second_creation_counterexample :
  fdict_get (fold_events (events two_incomplete_creations)) (mkFqid "speaker" 2)
  = Some (mkFolded Create {[ "user_id" := VInt 7 ]})
  ∧ List.filter (create_condition {[ "user_id" := VInt 7 ]})
      ["list_of_speakers_id"; "user_id"] = ["list_of_speakers_id"]
  ∧ validate_required_fields speaker_registry two_incomplete_creations
    = Raise (RequiredFieldsException "Creation of speaker/1"
               ["list_of_speakers_id"; "user_id"])
  ∧ validate_required_fields speaker_registry two_incomplete_creations
    ≠ Raise (RequiredFieldsException "Creation of speaker/2" ["list_of_speakers_id"]).
Proof. repeat split; try (vm_compute; reflexivity). vm_compute. discriminate. Qed.

Lemma fold_events_delete_supersedes_witness :
  (∃ v, fdict_get (fold_events (events created_updated_deleted)) (mkFqid "speaker" 1)
        = Some v
        ∧ folded_fields v !! "weight" = Some (VInt 2))
  ∧ validate_required_fields speaker_registry created_updated_deleted
    = validate_required_fields speaker_registry
        (set_events created_updated_deleted
           (filter (λ e, ev_fqid e ≠ mkFqid "speaker" 1)
                   (events created_updated_deleted))).
Proof.
  pose proof (fold_events_delete_supersedes speaker_registry created_updated_deleted
                (mkFqid "speaker" 1)) as (_ & Hfields & Hvalidate).
  split.
  - apply (Hfields [create_speaker 1 {[ "weight" := VInt 1 ]}]
             (mkEvent Update (mkFqid "speaker" 1)
                (Some {[ "weight" := VInt 2; "user_id" := VNone ]}) None)
             [mkEvent Delete (mkFqid "speaker" 1) None None]
             "weight" (VInt 2)).
    + reflexivity.
    + reflexivity.
    + reflexivity.
    + left. discriminate.
    + intros e' He' _ Hd. apply list_elem_of_singleton in He'. by subst.
  - apply Hvalidate. exists (mkEvent Delete (mkFqid "speaker" 1) None None).
    split; [|done]. do 2 right. left.
Defined.

(** * Further properties *)

(** ** The results of [perform] *)

Lemma instance_loop_native_length cls ctx payload results results' s s' :
  instance_loop cls ctx (iter_list payload) results s = (Ok results', s') →
  length results' = (length results + length payload)%nat.
Proof.
  unfold iter_list. revert results s.
  induction payload as [|instance rest IH]; intros results s Hloop.
  - cbn in Hloop. simplify_eq. simpl. lia.
  - cbn [yield_from instance_loop] in Hloop.
    destruct (process_instance cls ctx instance s) as [[result|e] s1]; [|done].
    apply IH in Hloop. rewrite length_app in Hloop. simpl in *. lia.
Qed.

(** X1. When [get_updated_instances] is the inherited one, a [perform] that
    returns has produced one result per payload element. *)
Theorem perform_results_aligned (cls : ActionClass) (ctx : Context)
    (payload : ActionData) (user : Z) (internal : bool) (s s' : State)
    (w : option WriteRequest) (results : ActionResults) :
  get_updated_instances cls = None →
  perform cls ctx payload user internal s = (Ok (w, results), s') →
  length results = length payload.
Proof.
  intros Hnative Hperform. unfold perform in Hperform. rewrite Hnative in Hperform.
  run_binds Hperform. simplify_eq.
  match goal with
  | H : instance_loop _ _ _ [] _ = _ |- _ => apply instance_loop_native_length in H
  end.
  done.
Qed.

Lemma perform_results_aligned_witness :
  ∃ w results s',
    perform ListOfSpeakersClear (no_relations true) clear_payload 1 false
      (fresh_state speakers_datastore) = (Ok (w, results), s')
    ∧ length results = 1%nat.
Proof.
  destruct (perform ListOfSpeakersClear (no_relations true) clear_payload 1 false
              (fresh_state speakers_datastore)) as [[[w results]|e] s'] eqn:H;
    [|vm_compute in H; discriminate H].
  exists w, results, s'. split; [reflexivity|].
  exact (perform_results_aligned ListOfSpeakersClear (no_relations true)
           clear_payload 1 false (fresh_state speakers_datastore) s' w results
           eq_refl H).
Defined.

(** X2. An external [perform] of a valid payload consults the permission
    service exactly once, with the name of the action, the user and the
    whole payload, whether it then raises or returns, provided the methods
    of the subclass and the relation manager do not consult it. *)
Theorem perform_external_consults_once (cls : ActionClass) (ctx : Context)
    (payload : ActionData) (user : Z) (s : State) :
  quiet_context ctx →
  quiet_class cls →
  valid_payload cls payload →
  permission_calls (shared (perform cls ctx payload user false s).2)
  = permission_calls (shared s) ++ [(name cls, user, payload)].
Proof.
  intros Hctx Hcls Hvalid. unfold perform, bind at 1 2 3, modify.
  rewrite (validate_loop_valid cls payload _ 0); [|done..].
  unfold bind at 1 2. rewrite !set_index_set_index. cbn [negb].
  unfold check_permissions, bind at 1 2, read_user_id, modify. cbn [self_user_id self set_index set_self set_user_id].
  set (s1 := log_permission_call _ _).
  destruct (is_allowed ctx (name cls) user payload); cbn [negb]; [|done].
  unfold ret at 1.
  match goal with
  | |- permission_calls (shared (?k s1).2) = _ =>
      assert (quiet k) as Hk
  end.
  { apply quiet_bind.
    - apply quiet_instance_loop; [done..|].
      destruct (get_updated_instances cls) as [f|] eqn:Hf.
      + by eapply quiet_get_updated_instances.
      + apply quiet_yield_from, quiet_gen_stop.
    - intros results. apply quiet_bind; [apply quiet_process_write_requests|].
      intros w. apply quiet_ret. }
  by rewrite Hk.
Qed.

Lemma perform_external_consults_once_witness :
  permission_calls
    (shared (perform ListOfSpeakersClear (no_relations true) clear_payload 1 false
               (fresh_state speakers_datastore)).2)
  = [("list_of_speakers.clear", 1, clear_payload)].
Proof.
  apply (perform_external_consults_once ListOfSpeakersClear (no_relations true)
           clear_payload 1 (fresh_state speakers_datastore)).
  - apply quiet_no_relations.
  - apply quiet_ListOfSpeakersClear.
  - repeat constructor.
Defined.

(** ** What a merge returns *)

Lemma merge_information_step (inf : gmap FullQualifiedId (list string))
    (k0 : FullQualifiedId) (new : list string) (k : FullQualifiedId) :
  (match inf !! k0 with
   | None => <[k0 := new]> inf
   | Some old => <[k0 := old ++ new]> inf
   end) !! k
  = if decide (k0 = k) then Some (default [] (inf !! k) ++ new) else inf !! k.
Proof.
  case_decide as Hk.
  - subst. destruct (inf !! k); by rewrite lookup_insert_eq.
  - destruct (inf !! k0); by rewrite lookup_insert_ne.
Qed.

Lemma merge_information_cons (inf : gmap FullQualifiedId (list string))
    (k0 : FullQualifiedId) (new : list string)
    (items : list (FullQualifiedId * list string)) :
  merge_information inf ((k0, new) :: items)
  = merge_information
      (match inf !! k0 with
       | None => <[k0 := new]> inf
       | Some old => <[k0 := old ++ new]> inf
       end) items.
Proof. reflexivity. Qed.

Lemma merge_information_absent (inf : gmap FullQualifiedId (list string))
    (items : list (FullQualifiedId * list string)) (k : FullQualifiedId) :
  k ∉ items.*1 → merge_information inf items !! k = inf !! k.
Proof.
  revert inf. induction items as [|[k0 new] items IH]; intros inf Hk; [done|].
  rewrite fmap_cons in Hk. apply not_elem_of_cons in Hk as [Hne Hk].
  rewrite merge_information_cons, IH by done. rewrite merge_information_step.
  rewrite decide_False; [done|]. by intros ->.
Qed.

Lemma merge_information_present (inf : gmap FullQualifiedId (list string))
    (items : list (FullQualifiedId * list string)) (k : FullQualifiedId)
    (new : list string) :
  NoDup items.*1 → (k, new) ∈ items →
  merge_information inf items !! k = Some (default [] (inf !! k) ++ new).
Proof.
  revert inf. induction items as [|[k0 new0] items IH]; intros inf Hnd Hin.
  - by apply elem_of_nil in Hin.
  - rewrite fmap_cons in Hnd. apply NoDup_cons in Hnd as [Hk0 Hnd].
    rewrite merge_information_cons. apply elem_of_cons in Hin as [Heq|Hin].
    + injection Heq as <- <-.
      rewrite merge_information_absent by done.
      rewrite merge_information_step. by rewrite decide_True.
    + rewrite IH by done. rewrite merge_information_step.
      rewrite decide_False; [done|]. intros ->. apply Hk0.
      apply list_elem_of_fmap. by exists (k, new).
Qed.

Lemma merge_information_map inf (m : gmap FullQualifiedId (list string)) k :
  merge_information inf (map_to_list m) !! k
  = match m !! k with
    | Some new => Some (default [] (inf !! k) ++ new)
    | None => inf !! k
    end.
Proof.
  destruct (m !! k) as [new|] eqn:Hm.
  - apply merge_information_present; [apply NoDup_fst_map_to_list|].
    by apply elem_of_map_to_list.
  - apply merge_information_absent. intros Hin.
    apply list_elem_of_fmap in Hin as ([k1 v1] & -> & Hin).
    apply elem_of_map_to_list in Hin. cbn in Hm. congruence.
Qed.

Lemma annotations_nil l k : ¬ annotated l k → annotations l k = [].
Proof.
  unfold annotated, annotations. induction l as [|w l IH]; intros Hno; [done|].
  rewrite fmap_cons. cbn [concat]. rewrite IH.
  - destruct (information w !! k) eqn:Hw; [|done].
    exfalso. apply Hno, Exists_cons_hd. by rewrite Hw.
  - intros Hex. by apply Hno, Exists_cons_tl.
Qed.

Lemma merged_information_lookup inf l k :
  merged_information inf l !! k
  = if decide (annotated l k)
    then Some (default [] (inf !! k) ++ annotations l k)
    else inf !! k.
Proof.
  unfold merged_information, annotated, annotations. revert inf.
  induction l as [|w l IH]; intros inf.
  - cbn [foldl]. rewrite decide_False; [done|]. by inversion 1.
  - cbn [foldl]. rewrite IH, merge_information_map. rewrite fmap_cons.
    cbn [concat]. destruct (information w !! k) as [new|] eqn:Hw.
    + assert (Exists (λ w0, is_Some (information w0 !! k)) (w :: l)) as Hex.
      { apply Exists_cons_hd. rewrite Hw. by eexists. }
      rewrite (decide_True _ _ Hex). cbn [from_option id].
      case_decide as Hl; [by rewrite <- app_assoc|].
      apply annotations_nil in Hl. unfold annotations in Hl.
      by rewrite Hl, app_nil_r.
    + cbn [from_option id app]. case_decide as Hl.
      * assert (Exists (λ w0, is_Some (information w0 !! k)) (w :: l)) as Hex
          by (by apply Exists_cons_tl).
        by rewrite (decide_True _ _ Hex).
      * rewrite decide_False; [done|]. intros Hex.
        apply Exists_cons in Hex as [Hsome|?]; [|done].
        rewrite Hw in Hsome. by destruct Hsome.
Qed.

Lemma merge_loop_ok l acc acc' :
  merge_loop l acc = Ok acc' →
  acc_events acc' = acc_events acc ++ concat (events <$> l)
  ∧ acc_information acc' = merged_information (acc_information acc) l
  ∧ Forall (λ w, acc_user_id acc' = Some (user_id w)) l
  ∧ (∀ u, acc_user_id acc = Some u → acc_user_id acc' = Some u).
Proof.
  revert acc. induction l as [|w l IH]; intros acc Hloop.
  - cbn in Hloop. simplify_eq. rewrite app_nil_r. by split_and!.
  - cbn [merge_loop] in Hloop.
    destruct (acc_user_id acc) as [u|] eqn:Hu.
    + case_bool_decide as Hne; [done|]. subst u.
      apply IH in Hloop as (Hev & Hinf & Hall & Huser).
      cbn [acc_events acc_information acc_user_id] in *.
      rewrite Hev, Hinf, <- app_assoc. split_and!; [done|done| |].
      * constructor; [by apply Huser|done].
      * intros u Hu'. simplify_eq. by apply Huser.
    + apply IH in Hloop as (Hev & Hinf & Hall & Huser).
      cbn [acc_events acc_information acc_user_id] in *.
      rewrite Hev, Hinf, <- app_assoc. split_and!; [done|done| |done].
      constructor; [by apply Huser|done].
Qed.

(** X3. A write request returned by [merge_write_requests] carries the user
    id of every element, the events of the elements in order, for every
    entity the annotations of the elements in order (and none for an entity
    that no element annotates), and empty locked fields; a merge that
    returns [None] was given no event. *)
Theorem merge_write_requests_result (l : list WriteRequest)
    (result : option WriteRequest) :
  merge_write_requests l = Ok result →
  match result with
  | Some w =>
      events w = concat (events <$> l)
      ∧ Forall (λ element, user_id element = user_id w) l
      ∧ (∀ fqid, information w !! fqid
                 = if decide (annotated l fqid) then Some (annotations l fqid) else None)
      ∧ locked_fields w = ∅
  | None => concat (events <$> l) = []
  end.
Proof.
  unfold merge_write_requests. intros Hmerge.
  destruct (merge_loop l _) as [acc|e] eqn:Hloop; [|done].
  apply merge_loop_ok in Hloop as (Hev & Hinf & Hall & _).
  cbn [acc_events acc_information app] in *.
  destruct (acc_events acc) as [|e evs] eqn:Hacc.
  { injection Hmerge as <-. by rewrite <- Hev. }
  destruct (acc_user_id acc) as [u|] eqn:Hu; [|done].
  injection Hmerge as <-.
  cbn [events user_id information locked_fields]. split_and!; [done| | |done].
  - eapply Forall_impl; [exact Hall|]. intros w Hw. cbn in Hw. congruence.
  - intros fqid. rewrite Hinf, merged_information_lookup, lookup_empty.
    by case_decide.
Qed.

Lemma merge_write_requests_result_witness :
  ∃ w, merge_write_requests
         [sample_request Delete 1 4; sample_request Update 1 4] = Ok (Some w)
       ∧ information w !! mkFqid "speaker" 1
         = Some ["Object changed"; "Object changed"]
       ∧ information w !! mkFqid "speaker" 2 = None.
Proof.
  destruct (merge_write_requests
              [sample_request Delete 1 4; sample_request Update 1 4])
    as [[w|]|e] eqn:H; try (vm_compute in H; discriminate H).
  exists w. split; [reflexivity|].
  destruct (merge_write_requests_result _ _ H) as (_ & _ & Hinf & _).
  rewrite !Hinf. split; reflexivity.
Defined.

(** X4. Merging a single write request that has events gives back its
    events, annotations and user id, with empty locked fields: what the
    element had locked is not in the result. *)
Theorem merge_write_requests_singleton (w : WriteRequest) :
  events w ≠ [] →
  merge_write_requests [w]
  = Ok (Some (mkWriteRequest (events w) (information w) (user_id w) ∅)).
Proof.
  intros Hne. unfold merge_write_requests. cbn [merge_loop acc_user_id acc_events
    acc_information app].
  destruct (events w) as [|e evs] eqn:Hev; [done|]. do 3 f_equal.
  apply map_eq. intros k. rewrite merge_information_map, lookup_empty.
  by destruct (information w !! k).
Qed.

Lemma merge_write_requests_singleton_witness :
  merge_write_requests
    [mkWriteRequest [sample_event Create 3] ∅ 1 {[ "speaker/3" := 5 ]}]
  = Ok (Some (mkWriteRequest [sample_event Create 3] ∅ 1 ∅)).
Proof.
  apply (merge_write_requests_singleton
           (mkWriteRequest [sample_event Create 3] ∅ 1 {[ "speaker/3" := 5 ]})).
  discriminate.
Defined.



(** ** Running another action *)

(** X6. [execute_other_action] raises [AttributeError] and changes nothing
    when the caller has no user id yet. Otherwise it is one internal
    [perform] of the other class for the user of the caller, started with
    attributes of its own on the shared state of the caller, under the
    permission service and relation manager of the caller and a map of
    additional models in which the argument wins over the map of the caller,
    and that over the map of the datastore. The caller keeps its user id and
    index, and its list of write requests grows by the returned write
    request, when there is one, and by nothing else. *)
Theorem execute_other_action_spec (ctx : Context) (cls : ActionClass)
    (payload : ActionData) (arm : ModelMap) (s : State) :
  match self_user_id (self s) with
  | None => execute_other_action ctx cls payload arm s
            = (Raise (AttributeError "user_id"), s)
  | Some u =>
      ∃ action_ctx,
        is_allowed action_ctx = is_allowed ctx
        ∧ get_relation_updates action_ctx = get_relation_updates ctx
        ∧ (∀ fqid, additional_relation_models action_ctx !! fqid
                   = first_model (arm !! fqid)
                       (additional_relation_models ctx !! fqid)
                       (ds_additional_relation_models (datastore (shared s)) !! fqid))
        ∧ let inner := perform cls action_ctx payload u true
                         (mkState (shared s) new_self) in
          let outer := execute_other_action ctx cls payload arm s in
          outer.1 = inner.1
          ∧ shared outer.2 = shared inner.2
          ∧ self_user_id (self outer.2) = Some u
          ∧ self_index (self outer.2) = self_index (self s)
          ∧ write_requests (self outer.2)
            = write_requests (self s)
              ++ match inner.1 with
                 | Ok (Some w, _) => [w]
                 | _ => []
                 end
  end.
Proof.
  unfold execute_other_action, read_user_id.
  destruct (self_user_id (self s)) as [u|] eqn:Hu; [|done].
  eexists (mkContext _ _ _). split; [reflexivity|]. split; [reflexivity|]. split.
  - intros fqid. cbn [additional_relation_models]. unfold first_model.
    destruct (arm !! fqid) as [m|] eqn:Harg.
    { by apply lookup_union_Some_l. }
    rewrite lookup_union_r by done.
    destruct (additional_relation_models ctx !! fqid) as [m|] eqn:Hown.
    { by apply lookup_union_Some_l. }
    by rewrite lookup_union_r.
  - cbn zeta.
    destruct (perform cls _ payload u true _) as [[[[w|] results]|e] s1];
      cbn [fst snd shared self set_write_requests set_self self_user_id
           self_index write_requests];
      split_and!; try done; by rewrite ?app_nil_r.
Qed.

(** ** Built write requests *)

(** X7. [build_write_request] changes no state. Without a user id it raises
    [AttributeError]; otherwise it returns one event of the given kind on
    the given entity, one annotation for that entity, the user id of the
    action and empty locked fields. The event carries the given fields
    exactly when they are a non-empty dictionary, and the given list fields
    exactly when one of their sides is present: an event never carries an
    empty dictionary. *)
Theorem build_write_request_spec (type : EventType) (fqid : FullQualifiedId)
    (info : string) (fields : option Instance) (list_fields : option ListFields)
    (s : State) :
  match self_user_id (self s) with
  | None => build_write_request type fqid info fields list_fields s
            = (Raise (AttributeError "user_id"), s)
  | Some u =>
      ∃ event,
        build_write_request type fqid info fields list_fields s
        = (Ok (mkWriteRequest [event] {[ fqid := [info] ]} u ∅), s)
        ∧ ev_type event = type
        ∧ ev_fqid event = fqid
        ∧ (∀ f, ev_fields event = Some f ↔ fields = Some f ∧ f ≠ ∅)
        ∧ (∀ lf, ev_list_fields event = Some lf
                 ↔ list_fields = Some lf ∧ lf ≠ mkListFields None None)
  end.
Proof.
  unfold build_write_request, bind, read_user_id.
  destruct (self_user_id (self s)) as [u|]; [|done].
  eexists. split; [reflexivity|]. cbn [ev_type ev_fqid ev_fields ev_list_fields].
  split_and!; [done|done| |].
  - intros f. destruct fields as [f0|]; [|by split; [|intros []]].
    unfold dict_truthy. destruct (map_to_list f0) as [|kv kvs] eqn:Hl.
    + apply map_to_list_empty_iff in Hl. subst. split; [done|].
      intros [? ?]. by simplify_eq.
    + split.
      * intros ?. simplify_eq. split; [done|]. intros ->.
        by rewrite map_to_list_empty in Hl.
      * by intros [-> _].
  - intros lf. destruct list_fields as [[a r]|]; [|by split; [|intros []]].
    unfold list_fields_truthy. cbn [lf_add lf_remove].
    destruct a, r; (split; [intros ?; by simplify_eq|intros [? ?]; by simplify_eq]).
Qed.

(** ** The order and the kinds of the folded view *)

Lemma fold_event_keys fdict event :
  (fold_event fdict event).*1
  = if decide (ev_fqid event ∈ fdict.*1)
    then fdict.*1 else fdict.*1 ++ [ev_fqid event].
Proof. rewrite fold_event_eq. apply fdict_set_keys. Qed.

Lemma filter_not_in_app (keys : list FullQualifiedId) k (l : list FullQualifiedId) :
  filter (λ y, y ∉ keys ++ [k]) l = filter (λ y, y ∉ keys) (filter (λ y, y ≠ k) l).
Proof.
  rewrite list_filter_filter. apply list_filter_iff. intros y.
  rewrite not_elem_of_app, list_elem_of_singleton. tauto.
Qed.

Lemma filter_not_in_known (keys : list FullQualifiedId) k (l : list FullQualifiedId) :
  k ∈ keys →
  filter (λ y, y ∉ keys) (filter (λ y, y ≠ k) l) = filter (λ y, y ∉ keys) l.
Proof.
  intros Hk. rewrite list_filter_filter. apply list_filter_iff. intros y.
  split; [by intros [? ?]|]. intros Hy. split; [done|]. by intros ->.
Qed.

Lemma filter_not_in_nil (l : list FullQualifiedId) :
  filter (λ y, y ∉ ([] : list FullQualifiedId)) l = l.
Proof.
  induction l as [|x l IH]; [done|].
  rewrite filter_cons_True by apply not_elem_of_nil. by rewrite IH.
Qed.

Lemma fold_events_keys (fdict : Fdict) evs :
  (foldl fold_event fdict evs).*1
  = fdict.*1 ++ filter (λ y, y ∉ fdict.*1) (first_occurrences (ev_fqid <$> evs)).
Proof.
  revert fdict. induction evs as [|e evs IH]; intros fdict.
  - cbn. by rewrite app_nil_r.
  - cbn [foldl]. rewrite IH, fold_event_keys, fmap_cons.
    cbn [first_occurrences]. rewrite filter_cons.
    destruct (decide (ev_fqid e ∈ fdict.*1)) as [Hin|Hnin].
    + rewrite decide_False by (by intros ?). by rewrite filter_not_in_known.
    + rewrite decide_True by done. rewrite <- app_assoc. cbn [app].
      by rewrite filter_not_in_app.
Qed.

Lemma fold_events_first_occurrences (evs : list Event) :
  (fold_events evs).*1 = first_occurrences (ev_fqid <$> evs).
Proof.
  unfold fold_events. rewrite fold_events_keys. rewrite fmap_nil.
  cbn [app]. apply filter_not_in_nil.
Qed.

Lemma elem_of_first_occurrences (evs : list Event) (fqid : FullQualifiedId) :
  fqid ∈ first_occurrences (ev_fqid <$> evs) ↔ ∃ e, e ∈ evs ∧ ev_fqid e = fqid.
Proof.
  induction evs as [|e evs IH].
  - split; [by intros ?%elem_of_nil|]. by intros (e & ?%elem_of_nil & _).
  - rewrite fmap_cons. cbn [first_occurrences]. rewrite elem_of_cons.
    rewrite list_elem_of_filter, IH. split.
    + intros [->|[_ (e' & He' & Hfq)]].
      * exists e. split; [by left|done].
      * exists e'. split; [by right|done].
    + intros (e' & He' & Hfq). apply elem_of_cons in He' as [->|He'].
      * by left.
      * destruct (decide (fqid = ev_fqid e)) as [?|Hne]; [by left|].
        right. split; [done|]. by exists e'.
Qed.

(** X8. The entries of the folded view of a list of events are the
    entities of the events, each once, in the order in which the entities
    first occur: this is the order in which [validate_required_fields]
    checks them. *)
Theorem fold_events_order (evs : list Event) :
  (fold_events evs).*1 = first_occurrences (ev_fqid <$> evs)
  ∧ NoDup (fold_events evs).*1
  ∧ (∀ fqid, fqid ∈ (fold_events evs).*1 ↔ ∃ e, e ∈ evs ∧ ev_fqid e = fqid).
Proof.
  split; [apply fold_events_first_occurrences|].
  split; [apply fold_events_NoDup, NoDup_nil_2|].
  intros fqid. rewrite fold_events_first_occurrences.
  apply elem_of_first_occurrences.
Qed.

Lemma fold_events_type_kept fdict evs x v0 :
  fdict_get fdict x = Some v0 →
  (∀ e, e ∈ evs → ev_fqid e = x → ev_type e ≠ Delete) →
  ∃ v, fdict_get (foldl fold_event fdict evs) x = Some v
       ∧ folded_type v = folded_type v0.
Proof.
  revert fdict v0. induction evs as [|e evs IH]; intros fdict v0 Hget Hall.
  - by exists v0.
  - cbn [foldl].
    destruct (decide (ev_fqid e = x)) as [Hx|Hx].
    + edestruct (IH (fold_event fdict e)) as (v & Hv & Ht).
      * rewrite fold_event_get, decide_True by done. reflexivity.
      * intros e' He'. apply Hall. by right.
      * exists v. split; [done|]. rewrite Ht, Hget. unfold fold_entry.
        rewrite decide_False; [done|]. apply Hall; [by left|done].
    + apply IH.
      * by rewrite fold_event_get, decide_False.
      * intros e' He'. apply Hall. by right.
Qed.

(** X9. When no event of an entity is a Delete, the folded kind of the
    entity is the kind of its first event, whatever comes later: an Update
    followed by a Create folds to an Update. *)
Theorem fold_events_first_kind (earlier later : list Event) (first : Event) :
  (∀ e, e ∈ earlier → ev_fqid e ≠ ev_fqid first) →
  (∀ e, e ∈ first :: later → ev_fqid e = ev_fqid first → ev_type e ≠ Delete) →
  ∃ v, fdict_get (fold_events (earlier ++ first :: later)) (ev_fqid first) = Some v
       ∧ folded_type v = ev_type first.
Proof.
  intros Hearlier Hnodelete. unfold fold_events. rewrite foldl_app. cbn [foldl].
  edestruct (fold_events_type_kept
               (fold_event (foldl fold_event [] earlier) first) later
               (ev_fqid first)) as (v & Hv & Ht).
  - rewrite fold_event_get, decide_True by done. reflexivity.
  - intros e He. apply Hnodelete. by right.
  - exists v. split; [done|]. rewrite Ht.
    by rewrite fold_events_get_None.
Qed.

Lemma fold_events_first_kind_witness :
  ∃ v, fdict_get
         (fold_events
            ([] ++ mkEvent Update (mkFqid "speaker" 1) (Some {[ "weight" := VInt 2 ]}) None
                :: [create_speaker 1 ∅])) (mkFqid "speaker" 1) = Some v
       ∧ folded_type v = Update.
Proof.
  apply (fold_events_first_kind []
           [create_speaker 1 ∅]
           (mkEvent Update (mkFqid "speaker" 1) (Some {[ "weight" := VInt 2 ]}) None)).
  - intros e He. by apply elem_of_nil in He.
  - intros e He _. repeat (apply elem_of_cons in He as [->|He]); try discriminate.
    by apply elem_of_nil in He.
Defined.

(** X10. A write request in which every entity with an event also has a
    Delete event passes the validation of required fields, whatever the
    model registry holds, also for collections it does not know. *)
Theorem validate_required_fields_all_deleted (model_registry : ModelRegistry)
    (write_request : WriteRequest) :
  (∀ e, e ∈ events write_request →
        ∃ e', e' ∈ events write_request
              ∧ ev_fqid e' = ev_fqid e ∧ ev_type e' = Delete) →
  validate_required_fields model_registry write_request = Ok tt.
Proof.
  intros Hdeleted. unfold validate_required_fields. apply check_required_ok.
  apply Forall_forall. intros [k v] Hin.
  assert (k ∈ (fold_events (events write_request)).*1) as Hk.
  { apply list_elem_of_fmap. by exists (k, v). }
  rewrite fold_events_first_occurrences in Hk.
  apply elem_of_first_occurrences in Hk as (e & He & Hfq).
  destruct (Hdeleted e He) as (e' & He' & Hfq' & Hd).
  apply fdict_get_elem_of in Hin; [|apply fold_events_NoDup, NoDup_nil_2].
  unfold fold_events in Hin.
  assert (folded_type v = Delete) as Hv.
  { rewrite (fold_events_type _ _ _ _ Hin). right. exists e'. split; [done|].
    split; [congruence|done]. }
  exists "". unfold required_fields_of. cbn [fst snd]. by rewrite Hv.
Qed.

Lemma validate_required_fields_all_deleted_witness :
  validate_required_fields ∅ created_updated_deleted = Ok tt.
Proof.
  apply (validate_required_fields_all_deleted ∅ created_updated_deleted).
  intros e He. exists (mkEvent Delete (mkFqid "speaker" 1) None None).
  split; [do 2 right; left|].
  unfold created_updated_deleted in He. cbn [events] in He.
  repeat (apply elem_of_cons in He as [->|He]); try (by split).
  by apply elem_of_nil in He.
Defined.

(** X11. The first entry of the folded view that is no Delete and whose
    collection the model registry does not hold makes the validation raise
    [KeyError] for that collection, when the entries before it raise
    nothing. *)
Theorem validate_required_fields_unknown_collection (model_registry : ModelRegistry)
    (write_request : WriteRequest) (before after : Fdict)
    (fqid : FullQualifiedId) (v : Folded) :
  fold_events (events write_request) = before ++ (fqid, v) :: after →
  Forall (no_obligation model_registry) before →
  folded_type v ≠ Delete →
  model_registry !! fqid_collection fqid = None →
  validate_required_fields model_registry write_request
  = Raise (KeyError (fqid_collection fqid)).
Proof.
  intros Hfold Hbefore Hkind Hunknown. unfold validate_required_fields.
  rewrite Hfold, check_required_app by done. cbn [check_required].
  unfold required_fields_of, registry_required_fields. rewrite Hunknown.
  by destruct (folded_type v).
Qed.

Lemma validate_required_fields_unknown_collection_witness :
  validate_required_fields ∅ one_incomplete_creation = Raise (KeyError "speaker").
Proof.
  apply (validate_required_fields_unknown_collection ∅ one_incomplete_creation
           [] [] (mkFqid "speaker" 1)
           (mkFolded Create {[ "user_id" := VInt 0; "weight" := VInt 3 ]})).
  - reflexivity.
  - constructor.
  - discriminate.
  - reflexivity.
Defined.

(** ** The instances of delete_all_speakers *)

Lemma gen_to_list_next {A} (g : Generator A) acc s :
  gen_to_list g acc s
  = match next g s with
    | (Raise e, s') => (Raise e, s')
    | (Ok None, s') => (Ok acc, s')
    | (Ok (Some (x, rest)), s') => gen_to_list rest (acc ++ [x]) s'
    end.
Proof. by destruct g. Qed.

Lemma gen_to_list_yield_from {A} (xs : list A) (k : Generator A) acc s :
  gen_to_list (yield_from xs k) acc s = gen_to_list k (acc ++ xs) s.
Proof.
  revert acc. induction xs as [|x xs IH]; intros acc.
  - by rewrite app_nil_r.
  - cbn [yield_from gen_to_list]. rewrite IH. by rewrite <- app_assoc.
Qed.

Lemma restrict_fields_lookup (mapped_fields : list string) (model : Instance) k :
  k ∈ mapped_fields → restrict_fields mapped_fields model !! k = model !! k.
Proof.
  intros Hk. unfold restrict_fields. destruct mapped_fields as [|f fs]; [done|].
  destruct (model !! k) as [v|] eqn:Hv.
  - by apply map_lookup_filter_Some_2.
  - apply map_lookup_filter_None_2. by left.
Qed.

Lemma fetch_model_speaker_ids ctx s id list_of_speakers :
  stored_model ctx (ds_models (datastore (shared s))) (mkFqid "list_of_speakers" id)
  = Some list_of_speakers →
  ∃ answer s',
    fetch_model ctx (mkFqid "list_of_speakers" id) ["speaker_ids"] s = (Ok answer, s')
    ∧ default VNone (answer !! "speaker_ids")
      = default VNone (list_of_speakers !! "speaker_ids")
    ∧ ds_models (datastore (shared s')) = ds_models (datastore (shared s))
    ∧ self s' = self s.
Proof.
  unfold stored_model, fetch_model. intros Hstored.
  destruct (additional_relation_models ctx !! _) as [m|] eqn:Harm.
  - simplify_eq. eexists _, s. split; [reflexivity|]. split; [|done].
    cbn [foldl]. by rewrite lookup_insert_eq.
  - unfold datastore_get. rewrite Hstored. eexists _, _. split; [reflexivity|].
    split; [|done]. rewrite restrict_fields_lookup; [done|by left].
Qed.

(** X12. When every payload element names a stored list of speakers, the
    generator of [delete_all_speakers] yields, element after element, one
    instance [{"id": speaker_id}] per speaker of the list, in the order of
    [speaker_ids]; it leaves the attributes of the action and the stored
    models as they are. *)
Theorem delete_all_speakers_instances (ctx : Context) (payload : ActionData)
    (speakers : list (list value)) (s : State) :
  Forall2 (has_speakers ctx (ds_models (datastore (shared s)))) payload speakers →
  ∃ s',
    gen_to_list (delete_all_speakers_get_updated_instances ctx payload) [] s
    = (Ok (concat ((λ ids : list value, delete_instance <$> ids) <$> speakers)), s')
    ∧ self s' = self s
    ∧ ds_models (datastore (shared s')) = ds_models (datastore (shared s)).
Proof.
  assert (∀ acc,
    Forall2 (has_speakers ctx (ds_models (datastore (shared s)))) payload speakers →
    ∃ s',
      gen_to_list (delete_all_speakers_get_updated_instances ctx payload) acc s
      = (Ok (acc ++ concat ((λ ids : list value, delete_instance <$> ids) <$> speakers)), s')
      ∧ self s' = self s
      ∧ ds_models (datastore (shared s')) = ds_models (datastore (shared s)))
    as Hgen; [|by apply (Hgen [])].
  intros acc Hall. revert s acc Hall. revert speakers.
  induction payload as [|element rest IH]; intros speakers s acc Hall.
  - inversion Hall; subst. exists s. cbn. by rewrite app_nil_r.
  - inversion Hall as [|? ids ? speakers' Hel Hrest]; subst.
    destruct Hel as (id & los & Hid & Hstored & Hids).
    destruct (fetch_model_speaker_ids ctx s id los Hstored)
      as (answer & s1 & Hfetch & Hanswer & Hmodels & Hself).
    rewrite <- Hmodels in Hrest.
    assert (default VNone (answer !! "speaker_ids") = VList ids
            ∨ (truthy (default VNone (answer !! "speaker_ids")) = false ∧ ids = []))
      as Hcase.
    { rewrite Hanswer. destruct Hids as [->|[-> ->]]; [by left|by right]. }
    cbn [delete_all_speakers_get_updated_instances gen_to_list].
    rewrite Hid, Hfetch. rewrite fmap_cons. cbn [concat].
    destruct ids as [|sid ids].
    + assert (truthy (default VNone (answer !! "speaker_ids")) = false) as ->.
      { destruct Hcase as [->|[? _]]; done. }
      destruct (IH speakers' s1 acc Hrest) as (s' & Hloop & Hself' & Hmodels').
      exists s'. rewrite gen_to_list_next in Hloop. rewrite Hloop.
      split; [done|]. split; congruence.
    + destruct Hcase as [Hlist|[_ ?]]; [|done]. rewrite Hlist.
      cbn [truthy iterate_value].
      destruct (IH speakers' s1
                  (acc ++ (delete_instance <$> sid :: ids)) Hrest)
        as (s' & Hloop & Hself' & Hmodels').
      exists s'. rewrite <- gen_to_list_yield_from, gen_to_list_next in Hloop.
      unfold delete_instance in Hloop at 1.
      rewrite Hloop. rewrite <- app_assoc. split; [done|]. split; congruence.
Qed.

Lemma delete_all_speakers_instances_witness :
  ∃ s',
    gen_to_list (delete_all_speakers_get_updated_instances (no_relations true)
                   (clear_payload ++ delete_all_payload)) []
      (fresh_state
         (mkDatastore
            {[ mkFqid "list_of_speakers" 23 := {[ "speaker_ids" := VList [VInt 4; VInt 2] ]};
               mkFqid "list_of_speakers" 24 := ∅ ]} 1 ∅ ∅ []))
    = (Ok (concat ((λ ids : list value, delete_instance <$> ids) <$> [[VInt 4; VInt 2]; [VInt 4; VInt 2]; []])),
       s')
    ∧ self s' = new_self
    ∧ ds_models (datastore (shared s'))
      = {[ mkFqid "list_of_speakers" 23 := {[ "speaker_ids" := VList [VInt 4; VInt 2] ]};
           mkFqid "list_of_speakers" 24 := ∅ ]}.
Proof.
  apply (delete_all_speakers_instances (no_relations true)
           (clear_payload ++ delete_all_payload)
           [[VInt 4; VInt 2]; [VInt 4; VInt 2]; []]).
  repeat constructor.
  - exists 23, {[ "speaker_ids" := VList [VInt 4; VInt 2] ]}.
    split; [reflexivity|]. split; [reflexivity|]. left. reflexivity.
  - exists 23, {[ "speaker_ids" := VList [VInt 4; VInt 2] ]}.
    split; [reflexivity|]. split; [reflexivity|]. left. reflexivity.
  - exists 24, ∅.
    split; [reflexivity|]. split; [reflexivity|]. right. split; reflexivity.
Defined.

(** ** agenda_item.create *)

Lemma reads_only_ret {A} (a : A) : reads_only (ret a).
Proof. by intros s. Qed.

Lemma reads_only_raise {A} e : reads_only (@raise State A e).
Proof. by intros s. Qed.

Lemma reads_only_lift_outcome {A} (o : outcome A) : reads_only (lift_outcome o).
Proof. by intros s. Qed.

Lemma reads_only_bind {A B} (m : Act A) (k : A → Act B) :
  reads_only m → (∀ a, reads_only (k a)) → reads_only (bind m k).
Proof.
  intros Hm Hk s. unfold bind. specialize (Hm s).
  destruct (m s) as [[a|e] s1]; cbn [snd] in *; [|done].
  specialize (Hk a s1). destruct Hm as (? & ? & ? & ?), Hk as (? & ? & ? & ?).
  split_and!; congruence.
Qed.

Lemma reads_only_mapM {A B} (f : A → Act B) l :
  (∀ a, reads_only (f a)) → reads_only (mapM f l).
Proof.
  intros Hf. induction l as [|x l IH]; cbn [mapM]; [apply reads_only_ret|].
  apply reads_only_bind; [done|]. intros y. apply reads_only_bind; [done|].
  intros ys. apply reads_only_ret.
Qed.

Lemma reads_only_datastore_get fqid mapped_fields :
  reads_only (datastore_get fqid mapped_fields false).
Proof.
  intros s. unfold datastore_get.
  by destruct (ds_models (datastore (shared s)) !! fqid).
Qed.

Lemma reads_only_agenda_item_enrich types collection instance :
  reads_only (agenda_item_enrich types collection instance).
Proof.
  unfold agenda_item_enrich. apply reads_only_bind; [|intros; apply reads_only_ret].
  unfold agenda_item_parent.
  destruct (get_is_none instance "parent_id"); [apply reads_only_ret|].
  destruct (instance !! "parent_id") as [[]|]; try apply reads_only_raise.
  apply reads_only_bind; [apply reads_only_datastore_get|]. intros parent.
  apply reads_only_bind; [apply reads_only_lift_outcome|]. intros level.
  apply reads_only_ret.
Qed.

Lemma mapM_length {A B} (f : A → Act B) l s l' s' :
  mapM f l s = (Ok l', s') → length l' = length l.
Proof.
  revert s l'. induction l as [|x l IH]; intros s l' Hm.
  - cbn in Hm. unfold ret in Hm. by simplify_eq.
  - cbn [mapM] in Hm. unfold bind at 1 in Hm.
    destruct (f x s) as [[y|e] s1]; [|done]. unfold bind at 1 in Hm.
    destruct (mapM f l s1) as [[ys|e] s2] eqn:Hl; [|done].
    unfold ret in Hm. simplify_eq. cbn. f_equal. by eapply IH.
Qed.

Lemma gen_to_list_iter_list {A} (l acc : list A) s :
  gen_to_list (iter_list l) acc s = (Ok (acc ++ l), s).
Proof. unfold iter_list. rewrite gen_to_list_yield_from. done. Qed.

(** X13. An agenda item without parent ([parent_id] absent or [None]) gets
    level 0, is hidden exactly when its type is the hidden one, and is
    internal exactly when its type is the internal one; no other key of the
    instance changes and the datastore is not read. *)
Theorem agenda_item_root (types : AgendaItemTypes) (collection : Collection)
    (instance : Instance) (s : State) :
  get_is_none instance "parent_id" = true →
  ∃ result,
    agenda_item_enrich types collection instance s = (Ok result, s)
    ∧ result !! "level" = Some (VInt 0)
    ∧ result !! "is_hidden"
      = Some (VBool (is_hidden_item types (default VNone (instance !! "type"))))
    ∧ result !! "is_internal"
      = Some (VBool (is_internal_item types (default VNone (instance !! "type"))))
    ∧ (∀ k, k ∉ agenda_item_assigned → result !! k = instance !! k).
Proof.
  intros Hroot. unfold agenda_item_enrich, agenda_item_parent, bind.
  rewrite Hroot. unfold ret. cbn [fst snd]. eexists. split; [reflexivity|].
  rewrite !(lookup_insert_ne _ _ "type") by done.
  split_and!.
  - by simplify_map_eq.
  - simplify_map_eq. by destruct (is_hidden_item types _).
  - simplify_map_eq. by destruct (is_internal_item types _).
  - intros k Hk. unfold agenda_item_assigned in Hk.
    rewrite !not_elem_of_cons in Hk. destruct Hk as (? & ? & ? & _).
    by rewrite !lookup_insert_ne.
Qed.

Lemma agenda_item_root_witness :
  ∃ result,
    agenda_item_enrich agenda_item_sample_types "agenda_item"
      hidden_root_item (fresh_state empty_datastore)
    = (Ok result, fresh_state empty_datastore)
    ∧ result !! "level" = Some (VInt 0)
    ∧ result !! "is_hidden" = Some (VBool true)
    ∧ result !! "is_internal" = Some (VBool false)
    ∧ (∀ k, k ∉ agenda_item_assigned →
            result !! k = hidden_root_item !! k).
Proof.
  destruct (agenda_item_root agenda_item_sample_types "agenda_item"
              hidden_root_item
              (fresh_state empty_datastore) ltac:(vm_compute; reflexivity))
    as (result & Hrun & Hlevel & Hhidden & Hinternal & Hother).
  exists result. split; [exact Hrun|]. split; [exact Hlevel|].
  split; [exact Hhidden|]. split; [exact Hinternal|exact Hother].
Defined.

(** X14. An agenda item whose parent is stored gets the level of the parent
    plus one (1 when the parent has no level); it is hidden when its type
    is the hidden one and has the value of [is_hidden] of the parent
    otherwise ([False] when the parent has none), and likewise for
    [is_internal]. The parent is read once, without lock: the locked-fields
    registry and the attributes of the action stay as they are. *)
Theorem agenda_item_child (types : AgendaItemTypes) (collection : Collection)
    (instance parent : Instance) (parent_id parent_level : Z) (s : State) :
  instance !! "parent_id" = Some (VInt parent_id) →
  ds_models (datastore (shared s)) !! mkFqid collection parent_id = Some parent →
  parent !! "level" = Some (VInt parent_level)
  ∨ (parent !! "level" = None ∧ parent_level = 0) →
  ∃ result s',
    agenda_item_enrich types collection instance s = (Ok result, s')
    ∧ result !! "level" = Some (VInt (parent_level + 1))
    ∧ result !! "is_hidden"
      = Some (if is_hidden_item types (default VNone (instance !! "type"))
              then VBool true
              else default (VBool false) (parent !! "is_hidden"))
    ∧ result !! "is_internal"
      = Some (if is_internal_item types (default VNone (instance !! "type"))
              then VBool true
              else default (VBool false) (parent !! "is_internal"))
    ∧ (∀ k, k ∉ agenda_item_assigned → result !! k = instance !! k)
    ∧ ds_get_calls (datastore (shared s'))
      = ds_get_calls (datastore (shared s))
        ++ [(mkFqid collection parent_id, ["is_hidden"; "is_internal"; "level"], false)]
    ∧ ds_locked_fields (datastore (shared s')) = ds_locked_fields (datastore (shared s))
    ∧ self s' = self s.
Proof.
  intros Hpid Hparent Hlevel.
  unfold agenda_item_enrich, agenda_item_parent, get_is_none.
  rewrite Hpid. unfold bind at 1 2. unfold datastore_get. rewrite Hparent.
  unfold bind at 1, lift_outcome.
  assert (py_add_one
            (default (VInt 0)
               (restrict_fields ["is_hidden"; "is_internal"; "level"] parent !! "level"))
          = Ok (VInt (parent_level + 1))) as ->.
  { rewrite restrict_fields_lookup by (do 2 right; left).
    by destruct Hlevel as [->|[-> ->]]. }
  unfold ret. cbn [fst snd].
  rewrite !(restrict_fields_lookup _ parent "is_hidden") by left.
  rewrite !(restrict_fields_lookup _ parent "is_internal") by (right; left).
  eexists _, _. split; [reflexivity|].
  rewrite !(lookup_insert_ne _ _ "type") by done.
  split_and!; try done.
  - by simplify_map_eq.
  - by simplify_map_eq.
  - by simplify_map_eq.
  - intros k Hk. unfold agenda_item_assigned in Hk.
    rewrite !not_elem_of_cons in Hk. destruct Hk as (? & ? & ? & _).
    by rewrite !lookup_insert_ne.
Qed.

Lemma agenda_item_child_witness :
  ∃ result s',
    agenda_item_enrich agenda_item_sample_types "agenda_item"
      child_item (fresh_state agenda_datastore) = (Ok result, s')
    ∧ result !! "level" = Some (VInt 3)
    ∧ result !! "is_hidden" = Some (VBool true)
    ∧ result !! "is_internal" = Some (VBool false).
Proof.
  destruct (agenda_item_child agenda_item_sample_types "agenda_item"
              child_item
              agenda_parent
              5 2 (fresh_state agenda_datastore) eq_refl eq_refl (or_introl eq_refl))
    as (result & s' & Hrun & Hlevel & Hhidden & Hinternal & _).
  exists result, s'. by split_and!.
Defined.

(** X15. [AgendaItemCreate.get_updated_instances] never locks a field and
    never changes a stored model, an attribute of the action or the log of
    the permission service, whether it returns or raises; when it returns,
    it yields one instance per payload element. *)
Theorem agenda_item_create_reads_only (types : AgendaItemTypes)
    (collection : Collection) (payload : ActionData) (s : State) :
  let run := gen_to_list
               (agenda_item_create_get_updated_instances types collection payload)
               [] s in
  ds_locked_fields (datastore (shared run.2)) = ds_locked_fields (datastore (shared s))
  ∧ ds_models (datastore (shared run.2)) = ds_models (datastore (shared s))
  ∧ self run.2 = self s
  ∧ permission_calls (shared run.2) = permission_calls (shared s)
  ∧ (∀ instances, run.1 = Ok instances → length instances = length payload).
Proof.
  cbn zeta. cbn [gen_to_list agenda_item_create_get_updated_instances].
  pose proof (reads_only_mapM (agenda_item_enrich types collection) payload
                (reads_only_agenda_item_enrich types collection) s) as Hread.
  destruct (mapM (agenda_item_enrich types collection) payload s)
    as [[payload'|e] s1] eqn:Hm; cbn [snd] in Hread.
  - pose proof (gen_to_list_iter_list payload' [] s1) as Hlist.
    rewrite gen_to_list_next in Hlist.
    destruct (next (iter_list payload') s1) as [[[[x rest]|]|e] s2];
      rewrite Hlist; cbn [fst snd]; destruct Hread as (? & ? & ? & ?);
      (split_and!; [done..|]); intros instances Heq; simplify_eq;
      by eapply mapM_length.
  - cbn [fst snd]. destruct Hread as (? & ? & ? & ?). by split_and!.
Qed.

Lemma agenda_item_weight_run (super_update_instance : Instance → Act Instance)
    (instance updated parent : Instance) (parent_id : Z) (s s1 : State) :
  super_update_instance instance s = (Ok updated, s1) →
  updated !! "parent_id" = Some (VInt parent_id) →
  ds_models (datastore (shared s1)) !! mkFqid "agenda_item" parent_id = Some parent →
  agenda_item_create_update_instance super_update_instance instance s
  = (match parent !! "weight" with
     | None | Some VNone => Ok updated
     | Some w =>
         match py_add_one w with
         | Ok weight => Ok (<[ "weight" := weight ]> updated)
         | Raise e => Raise e
         end
     end,
     after_read (mkFqid "agenda_item" parent_id) ["weight"] s1).
Proof.
  intros Hsuper Hpid Hparent.
  unfold agenda_item_create_update_instance, bind at 1. rewrite Hsuper.
  unfold get_is_none at 1. rewrite Hpid. unfold bind at 1, after_read, datastore_get.
  rewrite Hparent. cbn [snd]. unfold get_is_none.
  rewrite !restrict_fields_lookup by left.
  destruct (parent !! "weight") as [w|]; [|done].
  destruct w; try done; unfold bind, lift_outcome; cbn [from_option id py_add_one];
    done.
Qed.

(** X16. [AgendaItemCreate.update_instance] returns what the method of the
    super class returns when that instance has no parent, or when the
    stored parent has no weight; when the stored parent has the integer
    weight [w] it sets the weight of the instance to [w + 1]. It reads the
    parent without lock. *)
Theorem agenda_item_weight (super_update_instance : Instance → Act Instance)
    (instance updated : Instance) (s s1 : State) :
  super_update_instance instance s = (Ok updated, s1) →
  (get_is_none updated "parent_id" = true →
   agenda_item_create_update_instance super_update_instance instance s
   = (Ok updated, s1))
  ∧ (∀ parent_id parent,
       updated !! "parent_id" = Some (VInt parent_id) →
       ds_models (datastore (shared s1)) !! mkFqid "agenda_item" parent_id
       = Some parent →
       ∃ s',
         ds_locked_fields (datastore (shared s'))
         = ds_locked_fields (datastore (shared s1))
         ∧ match parent !! "weight" with
           | None | Some VNone =>
               agenda_item_create_update_instance super_update_instance instance s
               = (Ok updated, s')
           | Some (VInt w) =>
               agenda_item_create_update_instance super_update_instance instance s
               = (Ok (<[ "weight" := VInt (w + 1) ]> updated), s')
           | Some _ => True
           end).
Proof.
  intros Hsuper. split.
  - intros Hroot. unfold agenda_item_create_update_instance, bind at 1.
    by rewrite Hsuper, Hroot.
  - intros parent_id parent Hpid Hparent.
    rewrite (agenda_item_weight_run _ _ _ _ _ _ _ Hsuper Hpid Hparent).
    exists (after_read (mkFqid "agenda_item" parent_id) ["weight"] s1). split.
    + unfold after_read, datastore_get. by rewrite Hparent.
    + by destruct (parent !! "weight") as [[]|].
Qed.

Lemma agenda_item_weight_witness :
  ∃ s',
    ds_locked_fields (datastore (shared s')) = ∅
    ∧ agenda_item_create_update_instance ret child_item (fresh_state agenda_datastore)
      = (Ok (<[ "weight" := VInt (10 + 1) ]> child_item), s').
Proof.
  destruct (proj2 (agenda_item_weight ret child_item child_item
                     (fresh_state agenda_datastore) (fresh_state agenda_datastore)
                     eq_refl)
              5 agenda_parent ltac:(vm_compute; reflexivity)
              ltac:(vm_compute; reflexivity)) as (s' & Hlocks & Hrun).
  exists s'. split; [exact Hlocks|exact Hrun].
Defined.

(** ** validate_fields *)

Lemma validate_fields_loop_spec field_of keys (instance result : Instance) :
  NoDup keys →
  validate_fields_loop field_of keys instance = Ok result →
  ∀ k,
    match field_of k with
    | Some validate =>
        if decide (k ∈ keys)
        then ∃ v v', instance !! k = Some v ∧ validate v = Ok v'
                     ∧ result !! k = Some v'
        else result !! k = instance !! k
    | None => result !! k = instance !! k
    end.
Proof.
  revert instance. induction keys as [|k0 keys IH]; intros instance Hnd Hloop k.
  - cbn in Hloop. simplify_eq. destruct (field_of k); [|done].
    by rewrite decide_False by apply not_elem_of_nil.
  - apply NoDup_cons in Hnd as [Hk0 Hnd]. cbn [validate_fields_loop] in Hloop.
    destruct (field_of k0) as [validate0|] eqn:Hf0.
    + destruct (instance !! k0) as [v0|] eqn:Hv0; [|done].
      destruct (validate0 v0) as [v0'|e] eqn:Hval; [|done].
      specialize (IH _ Hnd Hloop k).
      destruct (decide (k = k0)) as [->|Hne].
      * rewrite Hf0 in *. rewrite decide_False in IH by done.
        rewrite decide_True by left. exists v0, v0'.
        by rewrite IH, lookup_insert_eq.
      * destruct (field_of k) as [validate|]; [|by rewrite IH, lookup_insert_ne].
        destruct (decide (k ∈ keys)) as [Hin|Hnin].
        -- rewrite decide_True by (by right).
           by rewrite lookup_insert_ne in IH.
        -- rewrite decide_False; [by rewrite IH, lookup_insert_ne|].
           intros Hin. apply elem_of_cons in Hin as [?|?]; done.
    + specialize (IH _ Hnd Hloop k).
      destruct (field_of k) as [validate|] eqn:Hf; [|done].
      destruct (decide (k ∈ keys)) as [Hin|Hnin].
      * by rewrite decide_True by (by right).
      * rewrite decide_False; [done|]. intros Hin.
        apply elem_of_cons in Hin as [->|?]; [congruence|done].
Qed.

Lemma validate_fields_loop_raise field_of keys (instance : Instance) e :
  NoDup keys →
  (∀ k, k ∈ keys → is_Some (instance !! k)) →
  validate_fields_loop field_of keys instance = Raise e →
  ∃ k validate v, k ∈ keys ∧ field_of k = Some validate
                  ∧ instance !! k = Some v ∧ validate v = Raise e.
Proof.
  revert instance. induction keys as [|k0 keys IH]; intros instance Hnd Hkeys Hloop.
  - done.
  - apply NoDup_cons in Hnd as [Hk0 Hnd]. cbn [validate_fields_loop] in Hloop.
    destruct (field_of k0) as [validate0|] eqn:Hf0.
    + destruct (Hkeys k0) as [v0 Hv0]; [by left|]. rewrite Hv0 in Hloop.
      destruct (validate0 v0) as [v0'|e0] eqn:Hval.
      * destruct (IH (<[k0 := v0']> instance) Hnd) as (k & validate & v & Hk & Hf & Hv & He);
          [|done|].
        -- intros k Hk. rewrite lookup_insert_ne by (by intros ->).
           apply Hkeys. by right.
        -- exists k, validate, v. split_and!; [by right|done| |done].
           rewrite lookup_insert_ne in Hv; [done|]. by intros ->.
      * simplify_eq. exists k0, validate0, v0. split_and!; [by left|done..].
    + destruct (IH instance Hnd) as (k & validate & v & Hk & Hrest); [|done|].
      * intros k Hk. apply Hkeys. by right.
      * exists k, validate, v. split; [by right|done].
Qed.

(** X17. [validate_fields], run over the keys of an instance: when it
    returns, every key that names a field of the model holds the validated
    value of the field and every other key holds its old value, so no key is
    added or lost; when it raises, the exception is that of the validation
    of one of the fields of the instance. *)
Theorem validate_fields_spec (field_of : string → option (value → outcome value))
    (keys : list string) (instance : Instance) :
  NoDup keys →
  (∀ k, k ∈ keys ↔ is_Some (instance !! k)) →
  match validate_fields field_of keys instance with
  | Ok result =>
      ∀ k, match field_of k, instance !! k with
           | Some validate, Some v => ∃ v', validate v = Ok v' ∧ result !! k = Some v'
           | _, _ => result !! k = instance !! k
           end
  | Raise e =>
      ∃ k validate v, field_of k = Some validate ∧ instance !! k = Some v
                      ∧ validate v = Raise e
  end.
Proof.
  intros Hnd Hkeys. unfold validate_fields.
  destruct (validate_fields_loop field_of keys instance) as [result|e] eqn:Hloop.
  - intros k. pose proof (validate_fields_loop_spec _ _ _ _ Hnd Hloop k) as Hk.
    destruct (field_of k) as [validate|]; [|by destruct (instance !! k)].
    destruct (decide (k ∈ keys)) as [Hin|Hnin].
    + destruct Hk as (v & v' & -> & Hval & Hres). by exists v'.
    + destruct (instance !! k) as [v|] eqn:Hv; [|done].
      exfalso. apply Hnin, Hkeys. by exists v.
  - destruct (validate_fields_loop_raise _ _ _ _ Hnd (λ k Hk, proj1 (Hkeys k) Hk) Hloop)
      as (k & validate & v & _ & ? & ? & ?).
    by exists k, validate, v.
Qed.

Lemma validate_fields_spec_witness :
  ∃ k validate v,
    positive_weight k = Some validate
    ∧ unvalidated_item !! k = Some v
    ∧ validate v = Raise (ActionException "weight must be positive").
Proof.
  assert (NoDup ["title"; "weight"]) as Hnd.
  { apply NoDup_cons. split; [|apply NoDup_singleton].
    intros Hin. apply list_elem_of_singleton in Hin. discriminate Hin. }
  assert (∀ k, k ∈ ["title"; "weight"] ↔ is_Some (unvalidated_item !! k)) as Hkeys.
  { intros k. split.
    - intros Hk. apply elem_of_cons in Hk as [->|Hk]; [by eexists|].
      apply list_elem_of_singleton in Hk as ->. by eexists.
    - intros [v Hv]. unfold unvalidated_item in Hv.
      destruct (decide (k = "weight")) as [->|Hw]; [right; left|].
      rewrite lookup_insert_ne in Hv by done.
      destruct (decide (k = "title")) as [->|Ht]; [left|].
      by rewrite lookup_singleton_ne in Hv. }
  exact (validate_fields_spec positive_weight ["title"; "weight"] unvalidated_item
           Hnd Hkeys).
Defined.
